(** * Mahjong score dashboard (app.py): scoring and aggregation engine

    A shallow embedding of the data pipeline of [app.py]:

    - the wide score table read from CSV, [reset_index] and [melt];
    - [compute_uma_and_rank], applied per [(GameID, Date)] group;
    - the date-range mask shared by every callback;
    - the four leaderboards of [update_ranking_tables];
    - the cumulative series of [update_daily_uma_graph];
    - the statistics of [update_summary_table].

    Data frames are lists of records, one record per frame row, in frame
    order.  Integer columns hold [Z]; where numpy computes on an [int64]
    column (the product by 50, the grouped sums, the running sums, the gap
    to the leader) the wrap-around of 64-bit arithmetic is written out, and
    the statements about those values say which columns they take to be
    [int64].  What Python computes row by row on its own integers (the uma
    added to a score, the offset added to a total) is exact.  The rank
    rates, which the code rounds to two decimals, are computed in binary
    floating point, because the error of the division decides which way a
    rate is rounded; the means and the avoidance rate, which are shown as
    computed, are exact rationals standing for the nearest [float64].
    Dates are day numbers.  The rendering code (Dash components, plotly
    figures) is not modelled. *)

From Stdlib Require Import ZArith QArith Qround Qabs Qpower Lia Lqa.
From Stdlib Require Import Sorting.Sorted Permutation String Ascii.
From stdpp Require Import base list gmap strings sorting.

Local Open Scope Z_scope.

(** ** Exceptions

    The exceptions the operations of the data pipeline can raise: the
    [KeyError] of the dictionary subscript [rank2uma[row["Rank"]]], the
    [IndexError] of [iloc] past the end of a frame, and the [ValueError] of
    [int] on a string that is not a number. *)

Inductive result (A : Type) : Type :=
  | Ok (a : A)
  | KeyError (k : Z)
  | IndexError
  | ValueError.
Arguments Ok {A} a.
Arguments KeyError {A} k.
Arguments IndexError {A}.
Arguments ValueError {A}.

Global Instance result_ret : MRet result := λ A a, Ok a.
Global Instance result_bind : MBind result := λ A B f m,
  match m with
  | Ok a => f a
  | KeyError k => KeyError k
  | IndexError => IndexError
  | ValueError => ValueError
  end.

Definition raises {A} (m : result A) : Prop := ∃ k, m = KeyError k.

(** ** 64-bit integers

    numpy computes on an [int64] column modulo [2 ^ 64], without any
    overflow error. *)

Definition int64 (z : Z) : Prop :=
  - 2 ^ 63 ≤ z < 2 ^ 63.

(** The [int64] that a mathematical result is stored as. *)
Definition wrap64 (z : Z) : Z :=
  (z + 2 ^ 63) `mod` 2 ^ 64 - 2 ^ 63.

Global Instance int64_dec z : Decision (int64 z).
Proof. unfold int64. apply _. Defined.

Definition add64 (a b : Z) : Z := wrap64 (a + b).
Definition sub64 (a b : Z) : Z := wrap64 (a - b).
Definition mul64 (a b : Z) : Z := wrap64 (a * b).

(** ** Sorting

    [sort_values] is called with pandas' default [kind="quicksort"], whose
    only contract is that the result is the input rows rearranged so that
    the key column is ordered; the order of rows with equal keys is not
    promised.  A [sort_kind] is any algorithm meeting that contract.  The
    comparison [le a b] reads "row [a] may be placed before row [b]". *)

Record sort_kind : Type := SortKind {
  sort_by : ∀ A : Type, (A → A → bool) → list A → list A;
  sort_by_perm : ∀ A (le : A → A → bool) (l : list A), sort_by A le l ≡ₚ l;
  sort_by_sorted : ∀ A (le : A → A → bool) (l : list A),
    (∀ x y, le x y = true ∨ le y x = true) →
    (∀ x y z, le x y = true → le y z = true → le x z = true) →
    StronglySorted (λ x y, le x y = true) (sort_by A le l)
}.
Arguments sort_by _ {A} _ _.

(** A sort is stable when rows that compare equal keep their input order. *)
Definition stable (K : sort_kind) : Prop :=
  ∀ A (le : A → A → bool) (l : list A) (x : A),
    (∀ x y z, le x y = true → le y z = true → le x z = true) →
    filter (λ y, le x y && le y x) (sort_by K le l)
    = filter (λ y, le x y && le y x) l.

(** Insertion sort, a stable sort: what [kind="stable"] would give, and the
    model of Python's [sorted] and of the key ordering of [groupby], whose
    keys are distinct. *)
Fixpoint insert {A} (le : A → A → bool) (x : A) (l : list A) : list A :=
  match l with
  | [] => [x]
  | y :: l' => if le x y then x :: l else y :: insert le x l'
  end.

Definition insertion_sort {A} (le : A → A → bool) (l : list A) : list A :=
  foldr (insert le) [] l.

(** Another algorithm within the contract: sort into the opposite order
    with insertion sort, then reverse the result.  Rows with equal keys
    come out in the reverse of their input order, as the two pairs of
    [two_pairs] do in the program's descending sorts. *)
Definition reversing_sort {A} (le : A → A → bool) (l : list A) : list A :=
  reverse (insertion_sort (λ a b, le b a) l).

(** ** Order of player labels

    Python compares [str] by code point, which on UTF-8 encoded labels is
    the bytewise lexicographic order [String.compare]. *)

Definition label_le (a b : string) : Prop := String.leb a b = true.
Definition label_lt (a b : string) : Prop := String.ltb a b = true.

(** ** The score table and its long form *)

(** [df] after [read_csv]: the player columns in file order and, per CSV
    line, the date and one score per player column.  [reset_index] makes the
    0-based line number the [GameID]. *)
Record raw_table : Type := RawTable {
  player_columns : list string;
  game_records : list (Z * list Z)
}.

(** Every line has one cell per player column. *)
Definition well_formed (df : raw_table) : Prop :=
  Forall (λ rec, length rec.2 = length (player_columns df)) (game_records df).

(** Rows of [long_df] as [melt] leaves them. *)
Module Long.
Record row : Type := Row {
  GameID : Z;
  Date : Z;
  Player : string;
  Score : Z
}.
End Long.

(** Rows of [long_df] after [compute_uma_and_rank]. *)
Record row : Type := Row {
  GameID : Z;
  Date : Z;
  Player : string;
  Score : Z;
  Rank : Z;
  UmaScore : Z;
  UmaScore_x50 : Z
}.

Global Instance long_row_eq_dec : EqDecision Long.row.
Proof. solve_decision. Defined.
Global Instance row_eq_dec : EqDecision row.
Proof. solve_decision. Defined.

(** The [melt] columns of a computed row. *)
Definition melted (r : row) : Long.row :=
  Long.Row (GameID r) (Date r) (Player r) (Score r).

(** [df.melt(id_vars=["GameID", "Date"], var_name="Player",
    value_name="Score")]: column by column, and within a column line by
    line. *)
Definition melt (df : raw_table) : list Long.row :=
  mjoin (imap (λ j name,
            imap (λ i rec, Long.Row (Z.of_nat i) rec.1 name (nth j rec.2 0))
                 (game_records df))
          (player_columns df)).

(** ** Rank and uma *)

Definition rank2uma : gmap Z Z := {[ 1 := 20; 2 := 10; 3 := -10; 4 := -20 ]}.

(** [d[k]] on a dictionary. *)
Definition subscript (d : gmap Z Z) (k : Z) : result Z :=
  match d !! k with
  | Some v => Ok v
  | None => KeyError k
  end.

Definition score_desc (a b : Long.row) : bool := Long.Score b <=? Long.Score a.

(** Order of the group keys [(GameID, Date)] of [groupby]. *)
Definition game_key (r : Long.row) : Z * Z := (Long.GameID r, Long.Date r).
Definition game_key_leb (a b : Z * Z) : bool :=
  (a.1 <? b.1) || ((a.1 =? b.1) && (a.2 <=? b.2)).

Definition game_keys (long_df : list Long.row) : list (Z * Z) :=
  insertion_sort game_key_leb (remove_dups (game_key <$> long_df)).

Definition game_group (long_df : list Long.row) (k : Z * Z) : list Long.row :=
  filter (λ r, game_key r = k) long_df.

(** The lambda of [group.apply(..., axis=1)],
    [row["Score"] + rank2uma[row["Rank"]]], an addition of Python integers,
    with the scaling that follows, [group["UmaScore"] * 50], a product of
    an [int64] column. *)
Definition with_uma (r : Long.row) (rank : Z) : result row :=
  uma ← subscript rank2uma rank;
  let UmaScore := Long.Score r + uma in
  mret (Row (Long.GameID r) (Long.Date r) (Long.Player r) (Long.Score r)
            rank UmaScore (mul64 UmaScore 50)).

Section pipeline.
Context (K : sort_kind).

(** [compute_uma_and_rank(group)]: the rows by [Score] descending, [Rank]
    the new index plus one, [UmaScore] by a lookup that can raise. *)
Definition compute_uma_and_rank (group : list Long.row) : result (list row) :=
  let group := sort_by K score_desc group in
  let ranked := imap (λ i r, (r, Z.of_nat i + 1)) group in
  mapM (λ p, with_uma p.1 p.2) ranked.

(** [long_df.groupby(["GameID", "Date"], group_keys=False)
    .apply(compute_uma_and_rank)], run once when the module is loaded. *)
Definition load (df : raw_table) : result (list row) :=
  let long_df := melt df in
  groups ← mapM (λ k, compute_uma_and_rank (game_group long_df k))
                (game_keys long_df);
  mret (mjoin groups).
End pipeline.

(** ** Date range *)

(** [long_df.loc[(long_df["Date"] >= start_date)
    & (long_df["Date"] <= end_date)]]. *)
Definition date_mask (start_date end_date : Z) (long_df : list row) : list row :=
  filter (λ r, start_date ≤ Date r ∧ Date r ≤ end_date) long_df.

(** ** Column reductions *)

(** The sum of a list of integers, as mathematics has it: the sum of a
    column of counts, and the sum the statements compare with. *)
Definition sumZ (l : list Z) : Z := foldr Z.add 0 l.

(** [.sum()] of an [int64] column: accumulated in an [int64]. *)
Definition sum64 (l : list Z) : Z := foldl add64 0 l.

(** [max] and [min] of a column; the groups they are applied to are never
    empty. *)
Definition maxZ (l : list Z) : Z :=
  match l with
  | [] => 0
  | x :: l' => foldr Z.max x l'
  end.

Definition minZ (l : list Z) : Z :=
  match l with
  | [] => 0
  | x :: l' => foldr Z.min x l'
  end.

Definition sizeZ {A} (l : list A) : Z := Z.of_nat (length l).

Definition meanQ (l : list Z) : Q := (inject_Z (sumZ l) / inject_Z (sizeZ l))%Q.

Definition sumQ (l : list Q) : Q := foldr Qplus 0%Q l.

(** [numpy.rint]: nearest integer, halves to the even neighbour. *)
Definition rint (q : Q) : Z :=
  let n := Qfloor q in
  match (q - inject_Z n ?= 1 # 2)%Q with
  | Lt => n
  | Gt => n + 1
  | Eq => if Z.even n then n else n + 1
  end.

(** ** Binary floating point

    A [float64] is the rational it denotes.  IEEE 754 division and
    multiplication return the exact result rounded to the nearest number
    with a significand of 53 bits, halves to the even significand, when the
    result neither overflows nor is subnormal; the numbers rounded here are
    counts, ratios of counts and percentages. *)

Definition pow2 (e : Z) : Q := (2 ^ e)%Q.

(** The binary exponent of [q ≠ 0]: [2 ^ ilog2 q <= |q| < 2 ^ (ilog2 q + 1)]. *)
Definition ilog2 (q : Q) : Z :=
  let e := Z.log2 (Z.abs (Qnum q)) - Z.log2 (Zpos (Qden q)) in
  if Qle_bool (pow2 e) (Qabs q) then e else e - 1.

(** Rounding to [float64]. *)
Definition fl (q : Q) : Q :=
  if Qeq_bool q 0 then 0%Q
  else
    let ulp := pow2 (ilog2 q - 52) in
    (inject_Z (rint (q / ulp)) * ulp)%Q.

(** The unit roundoff of [float64], [2 ^ -53]. *)
Definition u53 : Q := 1 # 9007199254740992.

Definition fdiv (a b : Q) : Q := fl (a / b).
Definition fmul (a b : Q) : Q := fl (a * b).

(** An [int64] converted to [float64]. *)
Definition to_float (z : Z) : Q := fl (inject_Z z).

(** [.round(2)] of a [float64] frame: numpy multiplies by [100.0], applies
    [rint] and divides by [100.0]. *)
Definition round2 (x : Q) : Q := fdiv (inject_Z (rint (fmul x 100))) 100.

(** ** The default date range (the date picker's initial bounds) *)

(** [long_df["Date"].min()] formatted for the date picker.  On a frame
    without rows the minimum is [NaT], on which [strftime] raises; [None]
    stands for that failure. *)
Definition min_date (long_df : list row) : option Z :=
  match long_df with
  | [] => None
  | _ => Some (minZ (Date <$> long_df))
  end.

(** [long_df["Date"].max()], likewise. *)
Definition max_date (long_df : list row) : option Z :=
  match long_df with
  | [] => None
  | _ => Some (maxZ (Date <$> long_df))
  end.

(** ** Grouping by player *)

(** The group keys of [groupby("Player")]: the labels present, ascending. *)
Definition players_of (dff : list row) : list string :=
  insertion_sort String.leb (remove_dups (Player <$> dff)).

Definition player_rows (dff : list row) (p : string) : list row :=
  filter (λ r, Player r = p) dff.

(** [dff.groupby("Player")[col].agg()], as (label, value) rows. *)
Definition groupby_player {V} (agg : list row → V) (dff : list row)
    : list (string * V) :=
  (λ p, (p, agg (player_rows dff p))) <$> players_of dff.

(** ** Leaderboards ([update_ranking_tables]) *)

(** A leaderboard line: the columns "順位", "Player" and the value. *)
Record ranked (V : Type) : Type := Ranked {
  position : Z;
  name : string;
  value : V
}.
Arguments Ranked {V} _ _ _.
Arguments position {V} _.
Arguments name {V} _.
Arguments value {V} _.

(** A line of the point ranking: "順位", "Player", "Pt", "PT差". *)
Record point_row : Type := PointRow {
  point_position : Z;
  point_name : string;
  Pt : Z;
  Pt_gap : Z
}.

Record ranking_tables : Type := RankingTables {
  point_summary : list point_row;
  highest_score : list (ranked Z);
  avoidance : list (ranked Q);
  uma50 : list (ranked Z)
}.

(** [frame.iloc[i]]. *)
Definition iloc {A} (frame : list A) (i : nat) : result A :=
  match frame !! i with
  | Some r => Ok r
  | None => IndexError
  end.

Definition Z_desc {A} (key : A → Z) (a b : A) : bool := key b <=? key a.
Definition Q_desc {A} (key : A → Q) (a b : A) : bool := Qle_bool (key b) (key a).

(** [(games - rank4) / games * 100]. *)
Definition avoidance_rate (games rank4 : Z) : Q :=
  ((inject_Z games - inject_Z rank4) / inject_Z games * 100)%Q.

Section callbacks.
Context (K : sort_kind) (bapp_dict : gmap string Z).

(** [frame.sort_values(col, ascending=False).reset_index(drop=True)]
    followed by [frame["順位"] = frame.index + 1]. *)
Definition rank_desc {V} (le : string * V → string * V → bool)
    (frame : list (string * V)) : list (ranked V) :=
  imap (λ i r, Ranked (Z.of_nat i + 1) r.1 r.2) (sort_by K le frame).

(** [top_pt = point_summary.iloc[0]["Pt"] if not point_summary.empty
    else 0], then [top_pt - point_summary["Pt"]] on the [int64] column. *)
Definition point_ranking (dff : list row) : result (list point_row) :=
  let point_summary := groupby_player (λ g, sum64 (Score <$> g)) dff in
  let point_summary := sort_by K (Z_desc snd) point_summary in
  top_pt ← (if decide (point_summary = [])
            then mret 0
            else r ← iloc point_summary 0; mret r.2);
  mret (imap (λ i r, PointRow (Z.of_nat i + 1) r.1 r.2 (sub64 top_pt r.2))
             point_summary).

Definition highest_score_ranking (dff : list row) : list (ranked Z) :=
  rank_desc (Z_desc snd) (groupby_player (λ g, maxZ (UmaScore <$> g)) dff).

Definition avoidance_ranking (dff : list row) : list (ranked Q) :=
  let total_games := groupby_player sizeZ dff in
  let rank4 : gmap string Z :=
    list_to_map (groupby_player sizeZ (filter (λ r, Rank r = 4) dff)) in
  let avoidance :=
    (λ r, (r.1, avoidance_rate r.2 (default 0 (rank4 !! r.1)))) <$> total_games in
  rank_desc (Q_desc snd) avoidance.

(** [frame.apply(lambda row: row[col] + bapp_dict.get(row["Player"], 0),
    axis=1)]: row by row, on Python integers. *)
Definition adjusted (uma50 : list (string * Z)) : list (string * Z) :=
  (λ r, (r.1, r.2 + default 0 (bapp_dict !! r.1))) <$> uma50.

Definition uma50_ranking (dff : list row) : list (ranked Z) :=
  rank_desc (Z_desc snd)
    (adjusted (groupby_player (λ g, sum64 (UmaScore_x50 <$> g)) dff)).

Definition update_ranking_tables (long_df : list row) (start_date end_date : Z)
    : result ranking_tables :=
  let dff := date_mask start_date end_date long_df in
  point_summary ← point_ranking dff;
  mret (RankingTables point_summary (highest_score_ranking dff)
                      (avoidance_ranking dff) (uma50_ranking dff)).
End callbacks.

(** ** Cumulative series ([update_daily_uma_graph]) *)

(** A line of [daily_sum_df]. *)
Record daily_row : Type := DailyRow {
  daily_Date : Z;
  daily_Player : string;
  daily_UmaScore : Z;
  UmaScore_cumsum : Z
}.

Definition day_key (r : row) : Z * string := (Date r, Player r).
Definition day_key_leb (a b : Z * string) : bool :=
  (a.1 <? b.1) || ((a.1 =? b.1) && String.leb a.2 b.2).

(** [dff.groupby(["Date", "Player"], as_index=False)["UmaScore"].sum()]. *)
Definition daily_sum (dff : list row) : list (Z * string * Z) :=
  (λ k, (k, sum64 (UmaScore <$> filter (λ r, day_key r = k) dff)))
    <$> insertion_sort day_key_leb (remove_dups (day_key <$> dff)).

(** [groupby("Player")["UmaScore"].cumsum()]: one running [int64] total per
    label, advanced in frame order. *)
Fixpoint group_cumsum (acc : gmap string Z) (frame : list (Z * string * Z))
    : list daily_row :=
  match frame with
  | [] => []
  | (d, p, u) :: frame' =>
      let c := add64 (default 0 (acc !! p)) u in
      DailyRow d p u c :: group_cumsum (<[p := c]> acc) frame'
  end.

Definition date_asc (a b : Z * string * Z) : bool := a.1.1 <=? b.1.1.

Section series.
Context (K : sort_kind).

Definition daily_uma (dff : list row) : list daily_row :=
  let daily_sum_df := daily_sum dff in
  let daily_sum_df := sort_by K date_asc daily_sum_df in
  group_cumsum ∅ daily_sum_df.

Definition update_daily_uma_graph (long_df : list row) (start_date end_date : Z)
    : list daily_row :=
  daily_uma (date_mask start_date end_date long_df).
End series.

(** ** Summary ([update_summary_table]) *)

(** Row labels of the report: "最高スコア", "最低スコア", "平均スコア",
    "<rank>位率", "平均順位", "生スコア合計", "ウマ込み合計", "Yeeeen". *)
Inductive item : Type :=
  | MaxScore
  | MinScore
  | MeanScore
  | RankRate (rank : Z)
  | MeanRank
  | RawTotal
  | UmaTotal
  | Yeeeen.

Global Instance item_eq_dec : EqDecision item.
Proof. solve_decision. Defined.

(** A pivoted frame: one column per player, one line per item; a cell is
    [None] where [reindex] finds no line. *)
Record pivot : Type := Pivot {
  pivot_columns : list string;
  pivot_lines : list (item * list (option Q))
}.

(** Columns of [pd.crosstab(dff["Player"], dff["Rank"])]. *)
Definition ranks_of (dff : list row) : list Z :=
  insertion_sort Z.leb (remove_dups (Rank <$> dff)).

(** A cell of the crosstab. *)
Definition rank_ct (dff : list row) (p : string) (rank : Z) : Z :=
  sizeZ (filter (λ r, Player r = p ∧ Rank r = rank) dff).

(** A cell of [(rank_ct.div(rank_ct.sum(axis=1), axis=0) * 100).round(2)]:
    the division of two counts in [float64], the product by [100.0], and the
    rounding. *)
Definition rank_rate (dff : list row) (p : string) (rank : Z) : Q :=
  let total := sumZ (rank_ct dff p <$> ranks_of dff) in
  round2 (fmul (fdiv (to_float (rank_ct dff p rank)) (to_float total)) 100).

(** ["位率" in idx]. *)
Definition is_rank_rate (i : item) : bool :=
  match i with RankRate _ => true | _ => false end.

(** [int(x.replace("位率", ""))]: the rank of a rate label; on any other
    label of the report [int] raises. *)
Definition rate_rank (i : item) : result Z :=
  match i with RankRate rank => Ok rank | _ => ValueError end.

(** [frame.reindex(order)]. *)
Definition reindex (order : list item) (frame : pivot) : pivot :=
  Pivot (pivot_columns frame)
    ((λ i, (i, match list_find (λ line, line.1 = i) (pivot_lines frame) with
               | Some (_, line) => line.2
               | None => replicate (length (pivot_columns frame)) None
               end))
       <$> order).

Section summary.
Context (bapp_dict : gmap string Z).

Definition summary_line (f : list row → Q) (dff : list row) : list (option Q) :=
  (λ p, Some (f (player_rows dff p))) <$> players_of dff.

(** [summary.set_index("Player").T], with the "Yeeeen" line already
    shifted by [bapp_dict]. *)
Definition summary_pivot (dff : list row) : list (item * list (option Q)) :=
  [ (RawTotal, summary_line (λ g, inject_Z (sum64 (Score <$> g))) dff);
    (UmaTotal, summary_line (λ g, inject_Z (sum64 (UmaScore <$> g))) dff);
    (MeanRank, summary_line (λ g, meanQ (Rank <$> g)) dff);
    (Yeeeen, (λ r, Some (inject_Z r.2))
               <$> adjusted bapp_dict
                     (groupby_player (λ g, sum64 (UmaScore_x50 <$> g)) dff));
    (MaxScore, summary_line (λ g, inject_Z (maxZ (UmaScore <$> g))) dff);
    (MinScore, summary_line (λ g, inject_Z (minZ (UmaScore <$> g))) dff);
    (MeanScore, summary_line (λ g, meanQ (UmaScore <$> g)) dff) ].

Definition rank_rate_T (dff : list row) : list (item * list (option Q)) :=
  (λ rank, (RankRate rank, (λ p, Some (rank_rate dff p rank)) <$> players_of dff))
    <$> ranks_of dff.

(** [sorted(labels, key=f)]: Python computes the key of every label, then
    sorts stably by the keys. *)
Definition sorted_by_key (f : item → result Z) (labels : list item)
    : result (list item) :=
  keyed ← mapM (λ idx, key ← f idx; mret (key, idx)) labels;
  mret (snd <$> insertion_sort (λ a b : Z * item, a.1 <=? b.1) keyed).

Definition summary_table (dff : list row) : result pivot :=
  let combined_pivot :=
    Pivot (players_of dff) (summary_pivot dff ++ rank_rate_T dff) in
  sorted_rank_rate ←
    sorted_by_key rate_rank
      (filter (λ i, is_rank_rate i) (fst <$> pivot_lines combined_pivot));
  let desired_order :=
    [MaxScore; MinScore; MeanScore] ++ sorted_rank_rate
      ++ [MeanRank; RawTotal; UmaTotal; Yeeeen] in
  mret (reindex desired_order combined_pivot).

Definition update_summary_table (long_df : list row) (start_date end_date : Z)
    : result pivot :=
  summary_table (date_mask start_date end_date long_df).
End summary.

(** ** Reading a cell of the report *)

(** [combined_pivot.loc[row_name, player]], as the rendering loop reads it
    with labels taken from the frame itself; [None] is a blank (NaN) cell. *)
Definition loc (frame : pivot) (row_name : item) (player : string) : option Q :=
  match list_find (λ line, line.1 = row_name) (pivot_lines frame),
        list_find (λ c, c = player) (pivot_columns frame) with
  | Some (_, line), Some (j, _) => default None (line.2 !! j)
  | _, _ => None
  end.

(** ** Vocabulary of the statements *)

(** What one computed row records. *)
Definition uma_applied (r : row) : Prop :=
  rank2uma !! Rank r = Some (UmaScore r - Score r) ∧
  UmaScore_x50 r = wrap64 (UmaScore r * 50).

(** The frames whose [Score] and [UmaScore] columns numpy holds as [int64]:
    [read_csv] makes an [int64] column of integer cells of that size, and
    the row-wise [apply] of [compute_uma_and_rank] returns one when every
    sum fits. *)
Definition int64_frame (long_df : list row) : Prop :=
  Forall (λ r, int64 (Score r) ∧ int64 (UmaScore r)) long_df.

Global Instance int64_frame_dec long_df : Decision (int64_frame long_df).
Proof. unfold int64_frame. apply _. Defined.

(** The uma table as the spec wants it checked for [n] players. *)
Definition uma_table_valid (n : nat) : Prop :=
  (∀ rank, 1 ≤ rank ≤ Z.of_nat n → is_Some (rank2uma !! rank)) ∧
  sumZ ((λ rank, default 0 (rank2uma !! rank)) <$> seqZ 1 (Z.of_nat n)) = 0.

(** The point ranking that [point_ranking] returns: the guard of [top_pt]
    keeps [iloc] inside the frame ([point_ranking_Ok]). *)
Definition point_lines (K : sort_kind) (dff : list row) : list point_row :=
  let point_summary :=
    sort_by K (Z_desc snd) (groupby_player (λ g, sum64 (Score <$> g)) dff) in
  let top_pt := default 0 (snd <$> head point_summary) in
  imap (λ i r, PointRow (Z.of_nat i + 1) r.1 r.2 (sub64 top_pt r.2))
       point_summary.

(** The four leaderboards that [update_ranking_tables] returns
    ([update_ranking_tables_Ok]). *)
Definition leaderboards (K : sort_kind) (bapp_dict : gmap string Z)
    (dff : list row) : ranking_tables :=
  RankingTables (point_lines K dff) (highest_score_ranking K dff)
                (avoidance_ranking K dff) (uma50_ranking K bapp_dict dff).

(** The report that [summary_table] returns: [int] is only applied to rate
    labels, which come out in ascending order of their ranks
    ([summary_table_Ok]). *)
Definition summary_report (bapp_dict : gmap string Z) (dff : list row) : pivot :=
  reindex ([MaxScore; MinScore; MeanScore] ++ (RankRate <$> ranks_of dff)
             ++ [MeanRank; RawTotal; UmaTotal; Yeeeen])
          (Pivot (players_of dff) (summary_pivot bapp_dict dff ++ rank_rate_T dff)).

(** The order the spec asks of a leaderboard: a line placed before another
    has at least its value, and on equal values the smaller label. *)
Definition tie_ordered {A} (key_ge : relation A) (label : A → string)
    (table : list A) : Prop :=
  StronglySorted
    (λ a b, key_ge a b ∧ (key_ge b a → label_lt (label a) (label b))) table.

Definition leaderboards_tie_ordered (t : ranking_tables) : Prop :=
  tie_ordered (λ a b, Pt b ≤ Pt a) point_name (point_summary t) ∧
  tie_ordered (λ a b, value b ≤ value a) name (highest_score t) ∧
  tie_ordered (λ a b, (value b <= value a)%Q) name (avoidance t) ∧
  tie_ordered (λ a b, value b ≤ value a) name (uma50 t).

Definition leaderboards_descending (t : ranking_tables) : Prop :=
  StronglySorted (λ a b, Pt b ≤ Pt a) (point_summary t) ∧
  StronglySorted (λ a b, value b ≤ value a) (highest_score t) ∧
  StronglySorted (λ a b, (value b <= value a)%Q) (avoidance t) ∧
  StronglySorted (λ a b, value b ≤ value a) (uma50 t).

(** Running totals of a column, started from [acc], each stored as an
    [int64]. *)
Fixpoint cumsum64 (acc : Z) (l : list Z) : list Z :=
  match l with
  | [] => []
  | x :: l' => add64 acc x :: cumsum64 (add64 acc x) l'
  end.

Definition daily_cells (x : daily_row) : Z * string * Z :=
  (daily_Date x, daily_Player x, daily_UmaScore x).

(** The report on no rows: the seven fixed lines, no player column. *)
Definition empty_report : pivot :=
  Pivot [] [(MaxScore, []); (MinScore, []); (MeanScore, []); (MeanRank, []);
            (RawTotal, []); (UmaTotal, []); (Yeeeen, [])].

(** ** Score tables used in the examples *)

(** Four players, three games, the last two on the same day. *)
Definition sample_scores : raw_table :=
  RawTable ["A"; "B"; "C"; "D"]
    [(10, [250; 300; 200; 250]); (11, [100; 400; 300; 200]);
     (11, [0; 0; 0; 0])].

(** [sample_scores] loaded with a stable sort. *)
Definition sample_long_df : list row :=
  [Row 0 10 "B" 300 1 320 16000; Row 0 10 "A" 250 2 260 13000;
   Row 0 10 "D" 250 3 240 12000; Row 0 10 "C" 200 4 180 9000;
   Row 1 11 "B" 400 1 420 21000; Row 1 11 "C" 300 2 310 15500;
   Row 1 11 "D" 200 3 190 9500; Row 1 11 "A" 100 4 80 4000;
   Row 2 11 "A" 0 1 20 1000; Row 2 11 "B" 0 2 10 500;
   Row 2 11 "C" 0 3 (-10) (-500); Row 2 11 "D" 0 4 (-20) (-1000)].

Definition sample_bapp : gmap string Z := {[ "A" := 7; "Z" := 5 ]}.

(** A table for three players, one game played. *)
Definition three_players : raw_table :=
  RawTable ["A"; "B"; "C"] [(0, [300; 100; 200])].

(** One game with two pairs of equal scores. *)
Definition two_pairs : raw_table :=
  RawTable ["A"; "B"; "C"; "D"] [(0, [0; 0; 1; 1])].

(** [two_pairs] loaded with [reversing_sort]. *)
Definition two_pairs_long_df : list row :=
  [Row 0 0 "D" 1 1 21 1050; Row 0 0 "C" 1 2 11 550;
   Row 0 0 "B" 0 3 (-10) (-500); Row 0 0 "A" 0 4 (-20) (-1000)].

(** Five players, one game. *)
Definition five_players : raw_table :=
  RawTable ["A"; "B"; "C"; "D"; "E"] [(0, [300; 100; 200; 400; 0])].

(** * Properties *)

(** ** Sorting *)

Section insertion_sort.
Context {A : Type} (le : A → A → bool).

Lemma insert_perm x l : insert le x l ≡ₚ x :: l.
Proof.
  induction l as [|y l IH]; simpl; [done|].
  destruct (le x y); [done|].
  rewrite IH. apply perm_swap.
Qed.

Lemma insertion_sort_perm l : insertion_sort le l ≡ₚ l.
Proof.
  induction l as [|x l IH]; simpl; [done|].
  by rewrite insert_perm, IH.
Qed.

Hypothesis le_total : ∀ x y, le x y = true ∨ le y x = true.
Hypothesis le_trans : ∀ x y z, le x y = true → le y z = true → le x z = true.

Lemma insert_sorted x l :
  StronglySorted (λ a b, le a b = true) l →
  StronglySorted (λ a b, le a b = true) (insert le x l).
Proof.
  induction 1 as [|y l Hs IH Hy]; simpl.
  - repeat constructor.
  - destruct (le x y) eqn:Hxy.
    + constructor; [by constructor|].
      constructor; [done|].
      eapply Forall_impl; [exact Hy|]. intros z Hz. by eapply le_trans.
    + constructor; [done|].
      rewrite insert_perm. constructor; [|done].
      destruct (le_total x y); congruence.
Qed.

Lemma insertion_sort_sorted l :
  StronglySorted (λ a b, le a b = true) (insertion_sort le l).
Proof.
  induction l as [|x l IH]; simpl; [constructor|]. by apply insert_sorted.
Qed.

Lemma insert_filter_class c x l :
  filter (λ y, le c y && le y c) (insert le x l)
  = filter (λ y, le c y && le y c) (x :: l).
Proof.
  induction l as [|y l IH]; simpl; [done|].
  destruct (le x y) eqn:Hxy; [done|].
  rewrite filter_cons, IH, !filter_cons.
  destruct (decide (le c y && le y c)) as [Hy|Hy];
    destruct (decide (le c x && le x c)) as [Hx|Hx]; try done.
  apply andb_True in Hy as [Hy1 Hy2]. apply andb_True in Hx as [Hx1 Hx2].
  apply Is_true_true in Hy1, Hx2.
  rewrite (le_trans _ _ _ Hx2 Hy1) in Hxy. done.
Qed.

Lemma insertion_sort_stable c l :
  filter (λ y, le c y && le y c) (insertion_sort le l)
  = filter (λ y, le c y && le y c) l.
Proof.
  induction l as [|x l IH]; simpl; [done|].
  by rewrite insert_filter_class, !filter_cons, IH.
Qed.
End insertion_sort.

(** [kind="stable"]: insertion sort. *)
Definition stable_kind : sort_kind :=
  {| sort_by := @insertion_sort;
     sort_by_perm := @insertion_sort_perm;
     sort_by_sorted := λ A le l Htot Htr, insertion_sort_sorted le Htot Htr l |}.

Lemma stable_kind_stable : stable stable_kind.
Proof. intros A le l x Htr. by apply insertion_sort_stable. Qed.

Lemma reversing_sort_perm A (le : A → A → bool) l : reversing_sort le l ≡ₚ l.
Proof.
  unfold reversing_sort. by rewrite reverse_Permutation, insertion_sort_perm.
Qed.

Lemma StronglySorted_reverse_flip {A} (R : relation A) l :
  StronglySorted R l → StronglySorted (flip R) (reverse l).
Proof.
  induction 1 as [|x l Hs IH Hx]; [constructor|].
  rewrite reverse_cons. apply StronglySorted_app_2; [|done|by repeat constructor].
  intros a b Ha Hb. apply list_elem_of_singleton in Hb as ->.
  rewrite elem_of_reverse in Ha. rewrite Forall_forall in Hx. by apply Hx.
Qed.

Lemma reversing_sort_sorted A (le : A → A → bool) l :
  (∀ x y, le x y = true ∨ le y x = true) →
  (∀ x y z, le x y = true → le y z = true → le x z = true) →
  StronglySorted (λ x y, le x y = true) (reversing_sort le l).
Proof.
  intros Htot Htr. unfold reversing_sort.
  apply (StronglySorted_reverse_flip (λ a b, le b a = true)).
  apply (insertion_sort_sorted (λ a b, le b a)).
  - intros x y. destruct (Htot x y); auto.
  - intros x y z Hxy Hyz. by apply (Htr z y x).
Qed.

Definition reversing_kind : sort_kind :=
  {| sort_by := @reversing_sort;
     sort_by_perm := reversing_sort_perm;
     sort_by_sorted := reversing_sort_sorted |}.

(** ** Order of player labels *)

Lemma string_leb_trans a b c :
  String.leb a b = true → String.leb b c = true → String.leb a c = true.
Proof.
  unfold String.leb. revert b c.
  induction a as [|x a IH]; intros [|y b] [|z c]; simpl; try done.
  unfold Ascii.compare.
  destruct (N.compare_spec (N_of_ascii x) (N_of_ascii y));
    destruct (N.compare_spec (N_of_ascii y) (N_of_ascii z));
    destruct (N.compare_spec (N_of_ascii x) (N_of_ascii z));
    try done; try lia.
  apply IH.
Qed.

Lemma string_leb_refl a : String.leb a a = true.
Proof. destruct (String.leb_total a a); done. Qed.

Lemma label_le_lt a b : label_le a b → a ≠ b → label_lt a b.
Proof.
  unfold label_le, label_lt, String.leb, String.ltb. intros Hle Hne.
  destruct (String.compare a b) eqn:Hc; try done.
  by apply String.compare_eq_iff in Hc.
Qed.

Lemma label_lt_le a b : label_lt a b → label_le a b.
Proof.
  unfold label_le, label_lt, String.leb, String.ltb.
  by destruct (String.compare a b).
Qed.

Lemma label_lt_irrefl a : ¬ label_lt a a.
Proof.
  unfold label_lt, String.ltb. intros H.
  pose proof (String.compare_antisym a a) as Ha.
  destruct (String.compare a a); done.
Qed.


(** ** Facts about the exception monad *)

Lemma mapM_Ok_Forall2 {A B} (f : A → result B) l out :
  mapM f l = Ok out ↔ Forall2 (λ x y, f x = Ok y) l out.
Proof.
  revert out. induction l as [|x l IH]; intros out; simpl.
  - split; [intros [= <-]; constructor | by inversion 1].
  - split.
    + destruct (f x) as [y|k| |] eqn:Hx; simpl; [|done..].
      destruct (mapM f l) as [ys|k| |] eqn:Hl; simpl; [|done..].
      intros [= <-]. constructor; [done|]. by apply IH.
    + inversion 1 as [|? y ? ys Hx Hl]; subst. rewrite Hx. simpl.
      apply IH in Hl. rewrite Hl. done.
Qed.

Lemma rank2uma_is_Some k : is_Some (rank2uma !! k) ↔ 1 ≤ k ≤ 4.
Proof.
  unfold rank2uma. rewrite !lookup_insert, lookup_singleton.
  repeat case_decide; subst; split; intros Hk; try lia; try by eexists.
  all: by destruct Hk.
Qed.

Lemma score_desc_total a b : score_desc a b = true ∨ score_desc b a = true.
Proof. unfold score_desc. rewrite !Z.leb_le. lia. Qed.

Lemma score_desc_trans a b c :
  score_desc a b = true → score_desc b c = true → score_desc a c = true.
Proof. unfold score_desc. rewrite !Z.leb_le. lia. Qed.

(** ** [compute_uma_and_rank] *)

Lemma with_uma_Ok r rank y :
  with_uma r rank = Ok y →
  melted y = r ∧ Rank y = rank ∧ uma_applied y.
Proof.
  unfold with_uma, subscript, uma_applied.
  destruct (rank2uma !! rank) as [u|] eqn:Hu; simpl; [|done].
  intros [= <-]. simpl. split_and!; try done; [by destruct r|].
  rewrite Hu. f_equal. lia.
Qed.

(** The rank lookup is the only operation of the load that can fail. *)
Lemma with_uma_error r rank :
  with_uma r rank ≠ IndexError ∧ with_uma r rank ≠ ValueError.
Proof.
  unfold with_uma, subscript. by destruct (rank2uma !! rank).
Qed.

Lemma mapM_error {A B} (f : A → result B) l :
  (∀ x, f x ≠ IndexError ∧ f x ≠ ValueError) →
  mapM f l ≠ IndexError ∧ mapM f l ≠ ValueError.
Proof.
  intros Hf. induction l as [|x l [IH1 IH2]]; [done|]. simpl.
  destruct (Hf x) as [H1 H2].
  destruct (f x) as [y|k| |]; simpl; [|done..].
  by destruct (mapM f l).
Qed.

Lemma with_uma_raises r rank : raises (with_uma r rank) ↔ ¬ (1 ≤ rank ≤ 4).
Proof.
  rewrite <-rank2uma_is_Some. unfold with_uma, subscript, raises.
  destruct (rank2uma !! rank) as [u|]; simpl.
  - split; [by intros [? ?]|]. intros []. by eexists.
  - split; [by intros _ [? ?]|]. by eexists.
Qed.

Section compute_facts.
Context (K : sort_kind).

Lemma add_uma_rows (f : nat → Z) (l : list Long.row) out :
  mapM (λ p, with_uma p.1 p.2) (imap (λ i r, (r, f i)) l) = Ok out →
  melted <$> out = l ∧ Rank <$> out = f <$> seq 0 (length l) ∧
  Forall uma_applied out.
Proof.
  revert f out. induction l as [|x l IH]; intros f out; simpl.
  - intros [= <-]. done.
  - destruct (with_uma x (f 0%nat)) as [y| | |] eqn:Hy; simpl; [|done..].
    apply with_uma_Ok in Hy as (Hy1 & Hy2 & Hy3).
    destruct (mapM _ (imap _ l)) as [ys|k| |] eqn:Hl; simpl; [|done..].
    intros [= <-]. apply (IH (f ∘ S)) in Hl as (Hm & Hr & Hf).
    split_and!.
    + by rewrite fmap_cons, Hm, Hy1.
    + rewrite fmap_cons, Hr, Hy2. cbn [length seq].
      rewrite <-fmap_S_seq, <-list_fmap_compose. done.
    + by constructor.
Qed.

Lemma compute_uma_and_rank_Ok group out :
  compute_uma_and_rank K group = Ok out →
  melted <$> out = sort_by K score_desc group ∧
  Rank <$> out = seqZ 1 (sizeZ out) ∧
  Forall uma_applied out.
Proof.
  unfold compute_uma_and_rank. intros H.
  apply add_uma_rows in H as (Hm & Hr & Hf). split_and!; [done| |done].
  rewrite Hr. unfold seqZ, sizeZ. rewrite Nat2Z.id.
  rewrite <-(length_fmap melted out), Hm. done.
Qed.

Lemma add_uma_raises (f : nat → Z) (k : nat) (l : list Long.row) :
  (∀ i, f i = Z.of_nat (k + i) + 1) →
  match mapM (λ p, with_uma p.1 p.2) (imap (λ i r, (r, f i)) l) with
  | Ok _ => (k + length l ≤ 4)%nat ∨ l = []
  | KeyError _ => (4 < k + length l)%nat
  | IndexError | ValueError => False
  end.
Proof.
  revert f k. induction l as [|x l IH]; intros f k Hf; simpl; [by right|].
  destruct (with_uma_error x (f 0%nat)) as [Hi Hv].
  destruct (with_uma x _) as [y|e| |] eqn:Hy; simpl; [| |done..].
  - assert (¬ raises (with_uma x (f 0%nat))) as Hs
      by (rewrite Hy; by intros [? ?]).
    rewrite with_uma_raises, Hf in Hs.
    specialize (IH (f ∘ S) (S k)).
    destruct (mapM _ (imap _ l)) as [ys|e| |] eqn:Hl; simpl.
    + left. destruct IH as [IH| ->]; simpl; [|lia..].
      intros i. simpl. rewrite Hf. lia.
    + enough (4 < S k + length l)%nat by lia. apply IH.
      intros i. simpl. rewrite Hf. lia.
    + apply IH. intros i. simpl. rewrite Hf. lia.
    + apply IH. intros i. simpl. rewrite Hf. lia.
  - assert (raises (with_uma x (f 0%nat))) as Hs
      by (rewrite Hy; by eexists).
    rewrite with_uma_raises, Hf in Hs. lia.
Qed.

(** The rank lookup fails exactly on groups of more than four rows. *)
Lemma compute_uma_and_rank_raises group :
  raises (compute_uma_and_rank K group) ↔ (4 < length group)%nat.
Proof.
  unfold compute_uma_and_rank, raises.
  pose proof (add_uma_raises (λ i, Z.of_nat i + 1) 0
                (sort_by K score_desc group) (λ i, eq_refl)) as H.
  simpl in H.
  assert (length (sort_by K score_desc group) = length group) as Hlen
    by (by rewrite sort_by_perm).
  match type of H with context [mapM ?g ?l'] =>
    destruct (mapM g l') as [ys|e| |] eqn:Hl end; [| |done..].
  - split; [by intros [? ?]|]. intros Hgt.
    destruct H as [H|H]; [lia|]. rewrite H in Hlen. simpl in Hlen. lia.
  - split; [lia|]. by eexists.
Qed.
End compute_facts.

(** ** The long form *)

Lemma elem_of_melt df r :
  r ∈ melt df ↔
  ∃ j name i rec, player_columns df !! j = Some name ∧
    game_records df !! i = Some rec ∧
    r = Long.Row (Z.of_nat i) rec.1 name (nth j rec.2 0).
Proof.
  unfold melt. rewrite list_elem_of_join. split.
  - intros (l & Hr & Hl). apply elem_of_lookup_imap in Hl as (j & name & -> & Hj).
    apply elem_of_lookup_imap in Hr as (i & rec & -> & Hi). by exists j, name, i, rec.
  - intros (j & name & i & rec & Hj & Hi & ->).
    exists (imap (λ i rec, Long.Row (Z.of_nat i) rec.1 name (nth j rec.2 0))
                 (game_records df)).
    split.
    + apply elem_of_lookup_imap. by exists i, rec.
    + apply elem_of_lookup_imap. by exists j, name.
Qed.

(** A game has one date: [GameID] determines the group key. *)
Lemma melt_game_key df r r' :
  r ∈ melt df → r' ∈ melt df → Long.GameID r = Long.GameID r' →
  game_key r = game_key r'.
Proof.
  rewrite !elem_of_melt.
  intros (j & name & i & rec & Hj & Hi & ->) (j' & name' & i' & rec' & Hj' & Hi' & ->).
  simpl. intros Hg. apply Nat2Z.inj in Hg as ->. unfold game_key. simpl. congruence.
Qed.

Lemma game_key_leb_total a b : game_key_leb a b = true ∨ game_key_leb b a = true.
Proof.
  unfold game_key_leb.
  rewrite !orb_true_iff, !andb_true_iff, !Z.ltb_lt, !Z.eqb_eq, !Z.leb_le. lia.
Qed.

Lemma game_keys_perm l : game_keys l ≡ₚ remove_dups (game_key <$> l).
Proof. apply insertion_sort_perm. Qed.

Lemma elem_of_game_keys l k : k ∈ game_keys l ↔ ∃ r, r ∈ l ∧ game_key r = k.
Proof.
  rewrite game_keys_perm, elem_of_remove_dups, list_elem_of_fmap.
  split; intros (r & H1 & H2); eauto.
Qed.

Lemma NoDup_game_keys l : NoDup (game_keys l).
Proof. rewrite game_keys_perm. apply NoDup_remove_dups. Qed.

Lemma NoDup_melt_game_ids df : NoDup (fst <$> game_keys (melt df)).
Proof.
  apply NoDup_fmap_2_strong; [|apply NoDup_game_keys].
  intros k k' (r & Hr & <-)%elem_of_game_keys (r' & Hr' & <-)%elem_of_game_keys Hg.
  by apply (melt_game_key df).
Qed.

(** Selecting one game from the concatenated groups yields that game's
    group, or nothing when no group carries the identifier. *)
Lemma filter_game_join {Q : Z * Z → list row → Prop} keys outs g :
  (∀ k out, Q k out → Forall (λ r, GameID r = k.1) out) →
  NoDup (fst <$> keys) →
  Forall2 Q keys outs →
  (∃ k, k ∈ keys ∧ k.1 = g ∧ Q k (filter (λ r, GameID r = g) (mjoin outs))) ∨
  ((g ∉ fst <$> keys) ∧ filter (λ r, GameID r = g) (mjoin outs) = []).
Proof.
  intros HQ Hnd HF. revert Hnd.
  induction HF as [|k out keys outs Hk HF IH]; intros Hnd.
  - right. split; [apply not_elem_of_nil|done].
  - rewrite fmap_cons in Hnd. apply NoDup_cons in Hnd as [Hk1 Hnd].
    specialize (IH Hnd).
    change (mjoin (out :: outs)) with (out ++ mjoin outs). rewrite filter_app.
    pose proof (HQ _ _ Hk) as Hout.
    destruct (decide (k.1 = g)) as [Hg|Hg].
    + left. exists k. split; [left|]. split; [done|].
      destruct IH as [(k' & Hk' & Hg' & _)|[_ ->]].
      * exfalso. apply Hk1. rewrite Hg, <-Hg'. by apply list_elem_of_fmap_2.
      * rewrite app_nil_r.
        replace (filter (λ r, GameID r = g) out) with out; [done|].
        symmetry. clear -Hout Hg. induction Hout as [|r out Hr Hout IH]; [done|].
        rewrite filter_cons_True by congruence. by rewrite IH.
    + replace (filter (λ r, GameID r = g) out) with (@nil row).
      * rewrite app_nil_l. destruct IH as [(k' & Hk' & Hg' & HQ')|[Hn ->]].
        -- left. exists k'. split; [by right|done].
        -- right. split; [|done]. rewrite fmap_cons, not_elem_of_cons. done.
      * symmetry. clear -Hout Hg. induction Hout as [|r out Hr Hout IH]; [done|].
        rewrite filter_cons_False by congruence. done.
Qed.

Section load_facts.
Context (K : sort_kind).

Lemma load_Ok df long_df :
  load K df = Ok long_df →
  ∃ groups, long_df = mjoin groups ∧
    Forall2 (λ k out, compute_uma_and_rank K (game_group (melt df) k) = Ok out)
            (game_keys (melt df)) groups.
Proof.
  unfold load. destruct (mapM _ _) as [groups|e| |] eqn:Hg; simpl; [|done..].
  intros [= <-]. exists groups. split; [done|]. by apply mapM_Ok_Forall2.
Qed.

Lemma compute_group_game_id df k out :
  compute_uma_and_rank K (game_group (melt df) k) = Ok out →
  Forall (λ r, GameID r = k.1) out.
Proof.
  intros (Hm & _)%compute_uma_and_rank_Ok. apply Forall_forall. intros r Hr.
  assert (melted r ∈ sort_by K score_desc (game_group (melt df) k)) as Hin
    by (rewrite <-Hm; by apply list_elem_of_fmap_2).
  rewrite sort_by_perm in Hin. apply list_elem_of_filter in Hin as [Hin _].
  by rewrite <-Hin.
Qed.
End load_facts.

Lemma filter_ext_elem {A} (P Q : A → Prop) `{∀ x, Decision (P x)}
    `{∀ x, Decision (Q x)} (l : list A) :
  (∀ x, x ∈ l → P x ↔ Q x) → filter P l = filter Q l.
Proof.
  induction l as [|x l IH]; intros HPQ; [done|].
  rewrite !filter_cons. rewrite IH by (intros y Hy; apply HPQ; by right).
  pose proof (HPQ x (list_elem_of_here _ _)).
  destruct (decide (P x)), (decide (Q x)); tauto.
Qed.

Lemma StronglySorted_weaken {A} (R1 R2 : relation A) l :
  (∀ x y, R1 x y → R2 x y) → StronglySorted R1 l → StronglySorted R2 l.
Proof.
  intros HR. induction 1 as [|x l Hl IH Hx]; constructor; [done|].
  eapply Forall_impl; [exact Hx|]. intros y. apply HR.
Qed.

Lemma StronglySorted_fmap_inv {A B} (f : A → B) (R : relation B) l :
  StronglySorted R (f <$> l) → StronglySorted (λ x y, R (f x) (f y)) l.
Proof.
  induction l as [|x l IH]; [constructor|].
  rewrite fmap_cons. intros [Hx Hl]%StronglySorted_cons.
  constructor; [by apply IH|]. by rewrite Forall_fmap in Hx.
Qed.

Lemma length_filter_imap_game (f : nat → Z * list Z → Long.row) o g recs :
  (∀ i rec, Long.GameID (f i rec) = Z.of_nat (o + i)) →
  length (filter (λ r, Long.GameID r = Z.of_nat g) (imap f recs))
  = if decide (o ≤ g < o + length recs)%nat then 1%nat else 0%nat.
Proof.
  revert f o. induction recs as [|rec recs IH]; intros f o Hf.
  - simpl. case_decide; [lia|done].
  - rewrite imap_cons, filter_cons.
    assert (∀ i rec', Long.GameID ((f ∘ S) i rec') = Z.of_nat (S o + i)) as Hf'.
    { intros i rec'. simpl. rewrite Hf. f_equal. lia. }
    specialize (IH _ (S o) Hf'). rewrite Hf.
    destruct (decide (Z.of_nat (o + 0) = Z.of_nat g));
      cbn [length]; rewrite IH; repeat case_decide; lia.
Qed.

Lemma length_filter_join {A} (P : A → Prop) `{∀ x, Decision (P x)} ls :
  Forall (λ l, length (filter P l) = 1%nat) ls →
  length (filter P (mjoin ls)) = length ls.
Proof.
  induction 1 as [|l ls Hl _ IH]; [done|].
  change (mjoin (l :: ls)) with (l ++ mjoin ls).
  rewrite filter_app, length_app, Hl, IH. done.
Qed.

(** Each game in range has one long-form row per player column. *)
Lemma length_filter_melt df g :
  0 ≤ g < sizeZ (game_records df) →
  length (filter (λ r, Long.GameID r = g) (melt df)) = length (player_columns df).
Proof.
  intros Hg. unfold melt. rewrite length_filter_join, length_imap; [done|].
  apply Forall_forall. intros l (j & name & -> & Hj)%elem_of_lookup_imap.
  rewrite <-(Z2Nat.id g) by lia.
  rewrite (length_filter_imap_game _ 0%nat) by done.
  unfold sizeZ in Hg. case_decide; [done|lia].
Qed.

(** ** Games of the loaded frame *)

(** The rows of one game in the loaded frame: ranked 1..N in frame order,
    ordered by descending [Score], a rearrangement of the game's melted
    rows, each with its uma applied. *)
Lemma loaded_game (K : sort_kind) (df : raw_table) (long_df : list row) (g : Z) :
  load K df = Ok long_df →
  let game := filter (λ r, GameID r = g) long_df in
  Rank <$> game = seqZ 1 (sizeZ game) ∧
  StronglySorted (λ a b, Score b ≤ Score a) game ∧
  melted <$> game ≡ₚ filter (λ r, Long.GameID r = g) (melt df) ∧
  Forall uma_applied game.
Proof.
  intros (groups & -> & HF)%load_Ok game.
  destruct (filter_game_join _ _ g (compute_group_game_id K df)
              (NoDup_melt_game_ids df) HF) as [(k & Hk & Hg & Hc)|[Hn Hnil]].
  - fold game in Hc. apply compute_uma_and_rank_Ok in Hc as (Hm & Hr & Hu).
    split_and!; [done| |  |done].
    + apply (StronglySorted_fmap_inv melted (λ a b, Long.Score b ≤ Long.Score a)).
      rewrite Hm.
      eapply StronglySorted_weaken;
        [|apply sort_by_sorted; [apply score_desc_total|apply score_desc_trans]].
      intros a b Hab. by apply Z.leb_le.
    + rewrite Hm, sort_by_perm. unfold game_group.
      apply elem_of_game_keys in Hk as (r0 & Hr0 & Hk0).
      rewrite (filter_ext_elem _ (λ r, Long.GameID r = g)); [done|].
      intros r Hin. split; [intros <-; done|]. intros Hgr.
      rewrite <-Hk0. apply (melt_game_key df); [done..|].
      rewrite Hgr, <-Hg, <-Hk0. done.
  - fold game in Hnil. rewrite Hnil. split_and!; [done|constructor| |constructor].
    rewrite fmap_nil.
    destruct (filter _ (melt df)) as [|r l] eqn:Hmelt; [done|].
    assert (r ∈ filter (λ r, Long.GameID r = g) (melt df)) as Hr
      by (rewrite Hmelt; left).
    apply list_elem_of_filter in Hr as [Hgr Hr].
    exfalso. apply Hn. apply list_elem_of_fmap. exists (game_key r).
    split; [done|]. apply elem_of_game_keys. by exists r.
Qed.

Lemma loaded_game_length (K : sort_kind) (df : raw_table) (long_df : list row) g :
  load K df = Ok long_df →
  0 ≤ g < sizeZ (game_records df) →
  length (filter (λ r, GameID r = g) long_df) = length (player_columns df).
Proof.
  intros (_ & _ & Hperm & _)%(loaded_game K df long_df g) Hg.
  rewrite <-(length_filter_melt df g Hg), <-Hperm. by rewrite length_fmap.
Qed.

Lemma loaded_game_empty (K : sort_kind) (df : raw_table) (long_df : list row) g :
  load K df = Ok long_df →
  ¬ (0 ≤ g < sizeZ (game_records df)) →
  filter (λ r, GameID r = g) long_df = [].
Proof.
  intros (_ & _ & Hperm & _)%(loaded_game K df long_df g) Hg.
  destruct (filter _ long_df) as [|r l]; [done|]. exfalso.
  assert (melted r ∈ filter (λ r, Long.GameID r = g) (melt df)) as Hr
    by (rewrite <-Hperm, fmap_cons; left).
  apply list_elem_of_filter in Hr as [Hgr Hr].
  apply elem_of_melt in Hr as (j & name & i & rec & Hj & Hi & Hr).
  rewrite Hr in Hgr. simpl in Hgr. apply lookup_lt_Some in Hi.
  unfold sizeZ in Hg. lia.
Qed.

(** ** Ranks within a game (C1) *)

(** C1. For every game identifier, the rows of that game in the loaded
    long-form frame carry the ranks 1, 2, ..., N in this order, each once,
    where N is the number of rows of the game (the number of player columns
    when the identifier is that of a CSV line); the rows are that game's
    melted rows, in descending order of [Score], so the rank is the 1-based
    position after the sort. *)
Theorem C1_ranks_form_permutation (K : sort_kind) (df : raw_table)
    (long_df : list row) (g : Z) :
  load K df = Ok long_df →
  let game := filter (λ r, GameID r = g) long_df in
  Rank <$> game = seqZ 1 (sizeZ game) ∧
  NoDup (Rank <$> game) ∧
  (∀ k, k ∈ Rank <$> game ↔ 1 ≤ k ≤ sizeZ game) ∧
  StronglySorted (λ a b, Score b ≤ Score a) game ∧
  melted <$> game ≡ₚ filter (λ r, Long.GameID r = g) (melt df) ∧
  (0 ≤ g < sizeZ (game_records df) → length game = length (player_columns df)).
Proof.
  intros Hload game.
  destruct (loaded_game K df long_df g Hload) as (Hrank & Hsorted & Hperm & _).
  fold game in Hrank, Hsorted, Hperm.
  split_and!; try done.
  - rewrite Hrank. apply NoDup_seqZ.
  - intros k. rewrite Hrank, elem_of_seqZ. unfold sizeZ. lia.
  - intros Hg. by apply (loaded_game_length K df).
Qed.

(** C1 on [sample_scores], second game. *)
Lemma C1_ranks_form_permutation_witness :
  load stable_kind sample_scores = Ok sample_long_df ∧
  Rank <$> filter (λ r, GameID r = 1) sample_long_df = [1; 2; 3; 4].
Proof.
  assert (load stable_kind sample_scores = Ok sample_long_df) as Hload
    by (vm_compute; reflexivity).
  split; [exact Hload|].
  exact (proj1 (C1_ranks_form_permutation stable_kind sample_scores
                  sample_long_df 1 Hload)).
Defined.

(** ** Zero-sum uma (C2) *)

Lemma uma_applied_zero_sum (game : list row) :
  Rank <$> game = seqZ 1 4 → Forall uma_applied game →
  sumZ (UmaScore <$> game) = sumZ (Score <$> game).
Proof.
  intros Hrank Hu. change (seqZ 1 4) with [1; 2; 3; 4] in Hrank.
  destruct game as [|r1 [|r2 [|r3 [|r4 [|r5 game]]]]]; try done.
  injection Hrank as H1 H2 H3 H4.
  apply Forall_cons in Hu as [[U1 _] Hu]. apply Forall_cons in Hu as [[U2 _] Hu].
  apply Forall_cons in Hu as [[U3 _] Hu]. apply Forall_cons in Hu as [[U4 _] _].
  rewrite H1 in U1. rewrite H2 in U2. rewrite H3 in U3. rewrite H4 in U4.
  change (rank2uma !! 1) with (Some 20) in U1.
  change (rank2uma !! 2) with (Some 10) in U2.
  change (rank2uma !! 3) with (Some (-10)) in U3.
  change (rank2uma !! 4) with (Some (-20)) in U4.
  injection U1 as U1. injection U2 as U2. injection U3 as U3. injection U4 as U4.
  unfold sumZ. rewrite !fmap_cons, !fmap_nil. cbn [foldr]. lia.
Qed.

(** C2. The uma table has exactly the ranks 1..4 and its values sum to
    zero; hence in a loaded frame of four player columns every game's
    [UmaScore] column and [Score] column have the same sum. *)
Theorem C2_uma_zero_sum (K : sort_kind) (df : raw_table) (long_df : list row)
    (g : Z) :
  load K df = Ok long_df →
  length (player_columns df) = 4%nat →
  (∀ rank, is_Some (rank2uma !! rank) ↔ 1 ≤ rank ≤ 4) ∧
  sumZ ((λ rank, default 0 (rank2uma !! rank)) <$> seqZ 1 4) = 0 ∧
  let game := filter (λ r, GameID r = g) long_df in
  sumZ (UmaScore <$> game) = sumZ (Score <$> game).
Proof.
  intros Hload Hcols. split_and!.
  - apply rank2uma_is_Some.
  - reflexivity.
  - intros game. destruct (decide (0 ≤ g < sizeZ (game_records df))) as [Hg|Hg].
    + destruct (loaded_game K df long_df g Hload) as (Hrank & _ & _ & Hu).
      pose proof (loaded_game_length K df long_df g Hload Hg) as Hlen.
      apply uma_applied_zero_sum; [|done].
      fold game in Hrank. rewrite Hrank. unfold sizeZ. fold game in Hlen.
      by rewrite Hlen, Hcols.
    + unfold game. by rewrite (loaded_game_empty K df long_df g Hload Hg).
Qed.

(** C2 on [sample_scores], first game. *)
Lemma C2_uma_zero_sum_witness :
  load stable_kind sample_scores = Ok sample_long_df ∧
  length (player_columns sample_scores) = 4%nat ∧
  sumZ (UmaScore <$> filter (λ r, GameID r = 0) sample_long_df)
  = sumZ (Score <$> filter (λ r, GameID r = 0) sample_long_df).
Proof.
  assert (load stable_kind sample_scores = Ok sample_long_df) as Hload
    by (vm_compute; reflexivity).
  split; [exact Hload|]. split; [reflexivity|].
  exact (proj2 (proj2 (C2_uma_zero_sum stable_kind sample_scores
                         sample_long_df 0 Hload eq_refl))).
Defined.

(** C2 as stated fails for three players: nothing adapts or checks the
    table, so the ranks 1 to 3 draw 20 + 10 - 10 = 20, and the game's
    [UmaScore] sum is 620 against a [Score] sum of 600. *)
Lemma C2_three_players_not_zero_sum :
  well_formed three_players ∧
  sumZ ((λ rank, default 0 (rank2uma !! rank)) <$> seqZ 1 3) = 20 ∧
  ∃ long_df,
    load stable_kind three_players = Ok long_df ∧
    sumZ (UmaScore <$> filter (λ r, GameID r = 0) long_df) = 620 ∧
    sumZ (Score <$> filter (λ r, GameID r = 0) long_df) = 600.
Proof.
  split; [by repeat constructor|]. split; [reflexivity|].
  eexists. split; [vm_compute; reflexivity|]. split; reflexivity.
Qed.

(** ** No validation of the uma table (C10) *)

Lemma mapM_raises {A B} (f : A → result B) l :
  (∀ x, f x ≠ IndexError ∧ f x ≠ ValueError) →
  raises (mapM f l) ↔ Exists (λ x, raises (f x)) l.
Proof.
  intros Hf. induction l as [|x l IH]; simpl.
  - split; [by intros [? ?]|by inversion 1].
  - rewrite Exists_cons, <-IH. unfold raises.
    destruct (Hf x) as [Hi Hv].
    destruct (f x) as [y|e| |]; simpl; [| |done..].
    + destruct (mapM f l) as [ys|e| |]; simpl.
      * split; [by intros [? ?]|]. by intros [[? ?]|[? ?]].
      * split; [right|]; by eexists.
      * split; [by intros [? ?]|]. by intros [[? ?]|[? ?]].
      * split; [by intros [? ?]|]. by intros [[? ?]|[? ?]].
    + split; [left|]; by eexists.
Qed.

Lemma compute_uma_and_rank_error K group :
  compute_uma_and_rank K group ≠ IndexError ∧
  compute_uma_and_rank K group ≠ ValueError.
Proof.
  unfold compute_uma_and_rank. apply mapM_error.
  intros x. apply with_uma_error.
Qed.

(** Loading can only fail with the [KeyError] of the rank lookup. *)
Lemma load_error K df : load K df ≠ IndexError ∧ load K df ≠ ValueError.
Proof.
  unfold load.
  destruct (mapM_error (λ k, compute_uma_and_rank K (game_group (melt df) k))
              (game_keys (melt df)) (λ k, compute_uma_and_rank_error K _))
    as [Hi Hv].
  by destruct (mapM _ _).
Qed.

Lemma game_group_eq df k :
  k ∈ game_keys (melt df) →
  game_group (melt df) k = filter (λ r, Long.GameID r = k.1) (melt df) ∧
  0 ≤ k.1 < sizeZ (game_records df).
Proof.
  intros (r0 & Hr0 & <-)%elem_of_game_keys. split.
  - apply filter_ext_elem. intros r Hr. split; [by intros <-|].
    intros Hg. by apply (melt_game_key df).
  - apply elem_of_melt in Hr0 as (j & name & i & rec & Hj & Hi & ->).
    apply lookup_lt_Some in Hi. unfold sizeZ. simpl. lia.
Qed.

Lemma game_group_length df k :
  k ∈ game_keys (melt df) →
  length (game_group (melt df) k) = length (player_columns df).
Proof.
  intros [-> Hk]%game_group_eq. by apply length_filter_melt.
Qed.

(** C10, as amended.  Nothing validates the uma table.  Loading raises
    exactly when the score table has more than four player columns and at
    least one game, and what is raised is the [KeyError] of the rank lookup
    inside the per-game computation. *)
Theorem C10_load_raises_iff (K : sort_kind) (df : raw_table) :
  raises (load K df) ↔
  (4 < length (player_columns df))%nat ∧ game_records df ≠ [].
Proof.
  assert (raises (load K df) ↔
          Exists (λ k, raises (compute_uma_and_rank K (game_group (melt df) k)))
                 (game_keys (melt df))) as ->.
  { rewrite <-mapM_raises by (intros; apply compute_uma_and_rank_error).
    unfold load, raises.
    destruct (mapM _ _) as [groups|e| |]; simpl.
    - split; by intros [? ?].
    - split; intros _; by eexists.
    - split; by intros [? ?].
    - split; by intros [? ?]. }
  rewrite Exists_exists. split.
  - intros (k & Hk & Hr). apply compute_uma_and_rank_raises in Hr.
    rewrite (game_group_length df k Hk) in Hr. split; [done|].
    apply game_group_eq in Hk as [_ Hk]. unfold sizeZ in Hk.
    destruct (game_records df); [simpl in Hk; lia|done].
  - intros [Hn Hrec].
    destruct (player_columns df) as [|name cols] eqn:Hcols; [simpl in Hn; lia|].
    destruct (game_records df) as [|rec recs] eqn:Hrecs; [done|].
    set (r := Long.Row (Z.of_nat 0) rec.1 name (nth 0 rec.2 0)).
    assert (r ∈ melt df) as Hr.
    { apply elem_of_melt. exists 0%nat, name, 0%nat, rec.
      by rewrite Hcols, Hrecs. }
    exists (game_key r). split; [apply elem_of_game_keys; by exists r|].
    apply compute_uma_and_rank_raises. rewrite game_group_length.
    + by rewrite Hcols.
    + apply elem_of_game_keys. by exists r.
Qed.

(** C10 as stated fails: with three player columns the ranks 1..3 draw
    uma 20 + 10 - 10, which is not zero, and loading goes through without
    any error. *)
Lemma C10_no_validation :
  well_formed three_players ∧
  ¬ uma_table_valid (length (player_columns three_players)) ∧
  load stable_kind three_players =
    Ok [Row 0 0 "A" 300 1 320 16000; Row 0 0 "C" 200 2 210 10500;
        Row 0 0 "B" 100 3 90 4500].
Proof.
  split_and!.
  - by repeat constructor.
  - intros [_ Hsum]. vm_compute in Hsum. done.
  - vm_compute. reflexivity.
Qed.

(** ** Grouping by player *)

Lemma players_of_perm dff : players_of dff ≡ₚ remove_dups (Player <$> dff).
Proof. apply insertion_sort_perm. Qed.

Lemma elem_of_players_of dff p : p ∈ players_of dff ↔ p ∈ Player <$> dff.
Proof. by rewrite players_of_perm, elem_of_remove_dups. Qed.

Lemma NoDup_players_of dff : NoDup (players_of dff).
Proof. rewrite players_of_perm. apply NoDup_remove_dups. Qed.

Lemma StronglySorted_NoDup_strict {A B} (f : A → B) (R : relation A) l :
  StronglySorted R l → NoDup (f <$> l) →
  StronglySorted (λ a b, R a b ∧ f a ≠ f b) l.
Proof.
  induction 1 as [|x l Hl IH Hx]; [constructor|].
  rewrite fmap_cons. intros [Hin Hnd]%NoDup_cons. constructor; [by apply IH|].
  apply Forall_forall. intros y Hy. rewrite Forall_forall in Hx.
  split; [by apply Hx|]. intros Heq. apply Hin. rewrite Heq.
  by apply list_elem_of_fmap_2.
Qed.

(** The group keys come out in strictly ascending label order. *)
Lemma players_of_sorted dff : StronglySorted label_lt (players_of dff).
Proof.
  pose proof (insertion_sort_sorted String.leb String.leb_total string_leb_trans
                (remove_dups (Player <$> dff))) as Hs.
  apply (StronglySorted_NoDup_strict id) in Hs.
  - eapply StronglySorted_weaken; [|exact Hs].
    intros a b [Hab Hne]. by apply label_le_lt.
  - rewrite list_fmap_id. apply NoDup_players_of.
Qed.

Lemma groupby_player_fst {V} (agg : list row → V) dff :
  fst <$> groupby_player agg dff = players_of dff.
Proof.
  unfold groupby_player. rewrite <-list_fmap_compose. apply list_fmap_id.
Qed.

Lemma elem_of_groupby_player {V} (agg : list row → V) dff x :
  x ∈ groupby_player agg dff ↔
  x.1 ∈ Player <$> dff ∧ x.2 = agg (player_rows dff x.1).
Proof.
  unfold groupby_player. rewrite list_elem_of_fmap. split.
  - intros (p & -> & Hp). by rewrite <-elem_of_players_of.
  - intros [Hp Hx]. exists x.1. rewrite elem_of_players_of. split; [|done].
    destruct x; simpl in *; by subst.
Qed.

Lemma player_rows_nonempty dff p : p ∈ Player <$> dff ↔ player_rows dff p ≠ [].
Proof.
  unfold player_rows. rewrite list_elem_of_fmap. split.
  - intros (r & -> & Hr) Hnil.
    assert (r ∈ filter (λ r', Player r' = Player r) dff) as Hin
      by by apply list_elem_of_filter.
    rewrite Hnil in Hin. by apply not_elem_of_nil in Hin.
  - intros Hne. destruct (filter _ dff) as [|r l] eqn:Hf; [done|].
    assert (r ∈ filter (λ r', Player r' = p) dff) as Hin by (rewrite Hf; left).
    apply list_elem_of_filter in Hin as [Hp Hin]. by exists r.
Qed.

(** ** Leaderboards *)

Lemma filter_NoDup_singleton {A B} `{EqDecision B} (f : A → B) l x :
  NoDup (f <$> l) → x ∈ l → filter (λ y, f y = f x) l = [x].
Proof.
  induction l as [|a l IH]; [by intros _ ?%not_elem_of_nil|].
  rewrite fmap_cons. intros [Hin Hnd]%NoDup_cons [->|Hx]%elem_of_cons.
  - rewrite filter_cons_True by done. f_equal.
    destruct (filter _ l) as [|y l'] eqn:Hf; [done|]. exfalso.
    assert (y ∈ filter (λ y, f y = f a) l) as Hy by (rewrite Hf; left).
    apply list_elem_of_filter in Hy as [Hy1 Hy2]. apply Hin. rewrite <-Hy1.
    by apply list_elem_of_fmap_2.
  - rewrite filter_cons_False; [by apply IH|].
    intros Heq. apply Hin. rewrite Heq. by apply list_elem_of_fmap_2.
Qed.

Lemma Z_desc_total {A} (key : A → Z) a b :
  Z_desc key a b = true ∨ Z_desc key b a = true.
Proof. unfold Z_desc. rewrite !Z.leb_le. lia. Qed.

Lemma Z_desc_trans {A} (key : A → Z) a b c :
  Z_desc key a b = true → Z_desc key b c = true → Z_desc key a c = true.
Proof. unfold Z_desc. rewrite !Z.leb_le. lia. Qed.

Lemma Q_desc_total {A} (key : A → Q) a b :
  Q_desc key a b = true ∨ Q_desc key b a = true.
Proof.
  unfold Q_desc. rewrite !Qle_bool_iff.
  destruct (Qlt_le_dec (key a) (key b)); [right|left]; [by apply Qlt_le_weak|done].
Qed.

Lemma Q_desc_trans {A} (key : A → Q) a b c :
  Q_desc key a b = true → Q_desc key b c = true → Q_desc key a c = true.
Proof. unfold Q_desc. rewrite !Qle_bool_iff. intros H1 H2. by eapply Qle_trans. Qed.

Section leaderboard_facts.
Context (K : sort_kind).

Lemma sort_by_nil {A} (le : A → A → bool) : sort_by K le [] = [].
Proof. apply Permutation_nil_r. apply sort_by_perm. Qed.

Lemma rank_desc_name {V} (le : string * V → string * V → bool) frame :
  name <$> rank_desc K le frame ≡ₚ fst <$> frame.
Proof.
  unfold rank_desc. rewrite fmap_imap.
  rewrite <-(sort_by_perm K _ le frame) at 2.
  generalize (sort_by K le frame). intros l.
  rewrite <-(imap_const fst l). by erewrite imap_ext.
Qed.

Lemma rank_desc_position {V} (le : string * V → string * V → bool) frame :
  position <$> rank_desc K le frame = seqZ 1 (sizeZ frame).
Proof.
  unfold rank_desc. rewrite fmap_imap.
  rewrite (imap_ext _ (λ i _, Z.of_nat i + 1)) by done.
  unfold sizeZ.
  assert (length frame = length (sort_by K le frame)) as ->
    by by rewrite sort_by_perm.
  generalize (sort_by K le frame). intros l.
  rewrite (imap_seq_0 l (λ i, Z.of_nat i + 1)). unfold seqZ.
  by rewrite Nat2Z.id.
Qed.

Lemma elem_of_rank_desc {V} (le : string * V → string * V → bool) frame x :
  x ∈ rank_desc K le frame → (name x, value x) ∈ frame.
Proof.
  unfold rank_desc. intros (i & r & -> & Hr)%elem_of_lookup_imap. simpl.
  apply list_elem_of_lookup_2 in Hr. rewrite sort_by_perm in Hr. by destruct r.
Qed.

Lemma rank_desc_entry {V} (le : string * V → string * V → bool) frame p v :
  NoDup (fst <$> frame) → (p, v) ∈ frame →
  ∃ pos, filter (λ x, name x = p) (rank_desc K le frame) = [Ranked pos p v].
Proof.
  intros Hnd Hin. rewrite <-(sort_by_perm K _ le frame) in Hin.
  apply list_elem_of_lookup_1 in Hin as [i Hi].
  exists (Z.of_nat i + 1).
  apply (filter_NoDup_singleton name _ (Ranked (Z.of_nat i + 1) p v)).
  - by rewrite rank_desc_name.
  - unfold rank_desc. apply elem_of_lookup_imap. by exists i, (p, v).
Qed.
End leaderboard_facts.

(** ** 64-bit arithmetic *)

Lemma wrap64_int64 z : int64 (wrap64 z).
Proof.
  unfold int64, wrap64.
  pose proof (Z.mod_pos_bound (z + 2 ^ 63) (2 ^ 64)).
  lia.
Qed.

Lemma wrap64_id z : int64 z → wrap64 z = z.
Proof.
  unfold int64, wrap64. intros Hz. rewrite Z.mod_small; lia.
Qed.

Lemma wrap64_eqm a b :
  a `mod` 2 ^ 64 = b `mod` 2 ^ 64 →
  wrap64 a = wrap64 b.
Proof.
  unfold wrap64. intros Hab. f_equal.
  rewrite <-(Zplus_mod_idemp_l a), <-(Zplus_mod_idemp_l b). by rewrite Hab.
Qed.

Lemma wrap64_mod z :
  wrap64 z `mod` 2 ^ 64 = z `mod` 2 ^ 64.
Proof.
  unfold wrap64.
  rewrite <-Zminus_mod_idemp_l, Z.mod_mod by done.
  rewrite Zminus_mod_idemp_l. f_equal. lia.
Qed.

Lemma wrap64_wrap64 z : wrap64 (wrap64 z) = wrap64 z.
Proof. apply wrap64_id, wrap64_int64. Qed.

Lemma wrap64_add_l a b : wrap64 (wrap64 a + b) = wrap64 (a + b).
Proof.
  apply wrap64_eqm. rewrite <-Zplus_mod_idemp_l, wrap64_mod.
  by rewrite Zplus_mod_idemp_l.
Qed.

Lemma wrap64_add_r a b : wrap64 (a + wrap64 b) = wrap64 (a + b).
Proof. by rewrite Z.add_comm, wrap64_add_l, Z.add_comm. Qed.


(** The sum of an [int64] column is the mathematical sum, wrapped once. *)

Lemma foldl_add64_wrap acc l :
  wrap64 (foldl add64 acc l) = wrap64 (acc + sumZ l).
Proof.
  revert acc. induction l as [|x l IH]; intros acc.
  - simpl. f_equal. unfold sumZ. simpl. lia.
  - cbn [foldl]. rewrite IH. unfold add64. rewrite wrap64_add_l.
    f_equal. unfold sumZ. cbn [foldr]. lia.
Qed.

Lemma foldl_add64_int64 acc l : int64 acc → int64 (foldl add64 acc l).
Proof.
  revert acc. induction l as [|x l IH]; intros acc Hacc; [done|].
  cbn [foldl]. apply IH, wrap64_int64.
Qed.

Lemma sum64_spec l : sum64 l = wrap64 (sumZ l).
Proof.
  unfold sum64. rewrite <-(wrap64_id (foldl add64 0 l)).
  - by rewrite foldl_add64_wrap.
  - apply foldl_add64_int64. unfold int64. lia.
Qed.

Lemma sum64_exact l : int64 (sumZ l) → sum64 l = sumZ l.
Proof. intros Hl. by rewrite sum64_spec, wrap64_id. Qed.

(** ** The callbacks return *)

Lemma filter_all {A} (P : A → Prop) `{∀ x, Decision (P x)} l :
  Forall P l → filter P l = l.
Proof.
  induction 1 as [|x l Hx Hl IH]; [done|].
  by rewrite filter_cons_True, IH.
Qed.

Lemma insertion_sort_sorted_id {A} (le : A → A → bool) l :
  StronglySorted (λ a b, le a b = true) l → insertion_sort le l = l.
Proof.
  induction 1 as [|x l Hl IH Hx]; [done|].
  simpl. fold (insertion_sort le l). rewrite IH.
  destruct l as [|y l]; [done|]. simpl.
  apply Forall_cons in Hx as [-> _]. done.
Qed.

Lemma list_find_NoDup {A B} `{EqDecision B} (f : A → B) (l : list A) x :
  NoDup (f <$> l) → x ∈ l →
  ∃ j, list_find (λ y, f y = f x) l = Some (j, x).
Proof.
  intros Hnd Hx.
  destruct (list_find (λ y, f y = f x) l) as [[j y]|] eqn:Hfind.
  - exists j. f_equal. f_equal.
    apply list_find_Some in Hfind as (Hj & Hy & _).
    apply list_elem_of_lookup_2 in Hj.
    assert (y ∈ filter (λ y, f y = f x) l) as Hin by by apply list_elem_of_filter.
    rewrite (filter_NoDup_singleton f l x Hnd Hx) in Hin.
    by apply list_elem_of_singleton in Hin.
  - apply list_find_None in Hfind. rewrite Forall_forall in Hfind.
    by destruct (Hfind x Hx).
Qed.

Lemma NoDup_ranks_of dff : NoDup (ranks_of dff).
Proof.
  unfold ranks_of. rewrite insertion_sort_perm. apply NoDup_remove_dups.
Qed.

Lemma elem_of_ranks_of dff rank : rank ∈ ranks_of dff ↔ rank ∈ Rank <$> dff.
Proof. unfold ranks_of. by rewrite insertion_sort_perm, elem_of_remove_dups. Qed.

Lemma ranks_of_sorted dff : StronglySorted Z.lt (ranks_of dff).
Proof.
  pose proof (insertion_sort_sorted Z.leb) as Hs.
  specialize (Hs ltac:(intros x y; rewrite !Z.leb_le; lia)
                 ltac:(intros x y z; rewrite !Z.leb_le; lia)
                 (remove_dups (Rank <$> dff))).
  apply (StronglySorted_NoDup_strict id) in Hs.
  - eapply StronglySorted_weaken; [|exact Hs].
    intros a b [Hab Hne]. apply Z.leb_le in Hab. unfold id in Hne. lia.
  - rewrite list_fmap_id. apply NoDup_ranks_of.
Qed.

Lemma summary_labels bapp_dict dff :
  fst <$> (summary_pivot bapp_dict dff ++ rank_rate_T dff)
  = [RawTotal; UmaTotal; MeanRank; Yeeeen; MaxScore; MinScore; MeanScore]
    ++ (RankRate <$> ranks_of dff).
Proof.
  rewrite fmap_app. f_equal. unfold rank_rate_T.
  by rewrite <-list_fmap_compose.
Qed.

Lemma summary_labels_NoDup bapp_dict dff :
  NoDup (fst <$> (summary_pivot bapp_dict dff ++ rank_rate_T dff)).
Proof.
  rewrite summary_labels. apply NoDup_app. split_and!.
  - by apply (bool_decide_unpack _).
  - intros i Hi (c & -> & _)%list_elem_of_fmap.
    repeat (apply elem_of_cons in Hi as [?|Hi]; [done|]).
    by apply not_elem_of_nil in Hi.
  - apply NoDup_fmap_2; [|apply NoDup_ranks_of]. by intros ?? [=].
Qed.

(** [iloc[0]] is only reached on a frame with a first row. *)
Lemma point_ranking_Ok (K : sort_kind) dff :
  point_ranking K dff = Ok (point_lines K dff).
Proof.
  unfold point_ranking, point_lines. cbv zeta.
  destruct (sort_by K (Z_desc snd) _) as [|top sorted]; [done|].
  rewrite decide_False by done. done.
Qed.

Lemma update_ranking_tables_Ok (K : sort_kind) bapp_dict long_df start_date end_date :
  update_ranking_tables K bapp_dict long_df start_date end_date
  = Ok (leaderboards K bapp_dict (date_mask start_date end_date long_df)).
Proof.
  unfold update_ranking_tables. cbv zeta. by rewrite point_ranking_Ok.
Qed.

(** The key of every rate label is its rank. *)
Lemma mapM_rate_rank (ranks : list Z) :
  mapM (λ idx, key ← rate_rank idx; mret (key, idx)) (RankRate <$> ranks)
  = Ok ((λ rank, (rank, RankRate rank)) <$> ranks).
Proof.
  induction ranks as [|rank ranks IH]; [done|].
  rewrite !fmap_cons. cbn [mapM]. rewrite IH. done.
Qed.

Lemma sorted_rank_rate_labels bapp_dict dff :
  sorted_by_key rate_rank
    (filter (λ i, is_rank_rate i)
       (fst <$> (summary_pivot bapp_dict dff ++ rank_rate_T dff)))
  = Ok (RankRate <$> ranks_of dff).
Proof.
  rewrite summary_labels, filter_app.
  assert (filter (λ i, is_rank_rate i)
            [RawTotal; UmaTotal; MeanRank; Yeeeen; MaxScore; MinScore; MeanScore]
          = []) as -> by done.
  rewrite app_nil_l, filter_all.
  2:{ apply Forall_forall. by intros i (c & -> & _)%list_elem_of_fmap. }
  unfold sorted_by_key. rewrite mapM_rate_rank. simpl.
  rewrite insertion_sort_sorted_id.
  - by rewrite <-list_fmap_compose.
  - apply (StronglySorted_fmap _ Z.lt); [|apply ranks_of_sorted].
    intros a b Hab. simpl. apply Z.leb_le. lia.
Qed.

Lemma summary_table_Ok bapp_dict dff :
  summary_table bapp_dict dff = Ok (summary_report bapp_dict dff).
Proof.
  unfold summary_table. cbv zeta. cbn [pivot_lines].
  by rewrite sorted_rank_rate_labels.
Qed.

Lemma update_summary_table_Ok bapp_dict long_df start_date end_date :
  update_summary_table bapp_dict long_df start_date end_date
  = Ok (summary_report bapp_dict (date_mask start_date end_date long_df)).
Proof. apply summary_table_Ok. Qed.

(** ** The adjusted scaled score (C3) *)

Lemma load_uma_applied K df long_df :
  load K df = Ok long_df → Forall uma_applied long_df.
Proof.
  intros (groups & -> & HF)%load_Ok. apply Forall_join.
  induction HF as [|k out keys outs Hk HF IH]; constructor; [|done].
  by apply compute_uma_and_rank_Ok in Hk as (_ & _ & Hu).
Qed.

Lemma wrap64_sumZ_fmap {A} (f : A → Z) l :
  wrap64 (sumZ ((λ x, wrap64 (f x)) <$> l)) = wrap64 (sumZ (f <$> l)).
Proof.
  induction l as [|x l IH]; [done|].
  rewrite !fmap_cons. unfold sumZ in *. cbn [foldr].
  by rewrite wrap64_add_l, <-wrap64_add_r, IH, wrap64_add_r.
Qed.


Lemma adjusted_fst bapp_dict frame :
  fst <$> adjusted bapp_dict frame = fst <$> frame.
Proof. unfold adjusted. by rewrite <-list_fmap_compose. Qed.

Lemma summary_report_columns bapp_dict dff :
  pivot_columns (summary_report bapp_dict dff) = players_of dff.
Proof. done. Qed.





(** ** The avoidance rate (C5) *)

Lemma filter_nil_not_elem {A} (P : A → Prop) `{∀ x, Decision (P x)} l :
  (∀ x, x ∈ l → ¬ P x) → filter P l = [].
Proof.
  intros Hl. destruct (filter P l) as [|x l'] eqn:Hf; [done|].
  assert (x ∈ filter P l) as [Hx Hin]%list_elem_of_filter by (rewrite Hf; left).
  by destruct (Hl x Hin).
Qed.

Lemma player_rows_filter (P : row → Prop) `{∀ r, Decision (P r)} dff p :
  player_rows (filter P dff) p = filter P (player_rows dff p).
Proof.
  unfold player_rows. rewrite !list_filter_filter.
  apply list_filter_iff. intros r. tauto.
Qed.

(** The left merge with [rank4] followed by [fillna(0)] counts the player's
    fourth places. *)
Lemma rank4_lookup dff p :
  default 0 (list_to_map (M := gmap string Z)
               (groupby_player sizeZ (filter (λ r, Rank r = 4) dff)) !! p)
  = sizeZ (filter (λ r, Rank r = 4) (player_rows dff p)).
Proof.
  set (d4 := filter (λ r, Rank r = 4) dff).
  rewrite <-(player_rows_filter (λ r, Rank r = 4)). fold d4.
  destruct (decide (p ∈ Player <$> d4)) as [Hp|Hp].
  - erewrite elem_of_list_to_map_1; [done| |].
    + rewrite groupby_player_fst. apply NoDup_players_of.
    + by apply (elem_of_groupby_player sizeZ d4 (p, _)).
  - rewrite not_elem_of_list_to_map_1.
    + apply dec_stable. intros Hne. apply Hp, player_rows_nonempty.
      intros Hnil. rewrite Hnil in Hne. done.
    + by rewrite groupby_player_fst, elem_of_players_of.
Qed.

(** C5. The ranking callback returns, and in its avoidance leaderboard a
    player with at least one row in range has exactly one line, whose value
    is [(games - rank4) / games * 100] with [games] the number of the
    player's rows in range (not zero) and [rank4] the number of those with
    [Rank = 4]; a player with no row in range has no line. *)
Theorem C5_avoidance_rate (K : sort_kind) (bapp_dict : gmap string Z)
    (long_df : list row) (start_date end_date : Z) (p : string) :
  let dff := date_mask start_date end_date long_df in
  let games := sizeZ (player_rows dff p) in
  let rank4 := sizeZ (filter (λ r, Rank r = 4) (player_rows dff p)) in
  ∃ t,
    update_ranking_tables K bapp_dict long_df start_date end_date = Ok t ∧
    (0 < games →
     ∃ pos, filter (λ x, name x = p) (avoidance t)
            = [Ranked pos p
                 ((inject_Z games - inject_Z rank4) / inject_Z games * 100)%Q]) ∧
    (games = 0 → filter (λ x, name x = p) (avoidance t) = []).
Proof.
  intros dff games rank4.
  exists (leaderboards K bapp_dict dff).
  split; [apply update_ranking_tables_Ok|].
  set (frame :=
    (λ r : string * Z,
       (r.1, avoidance_rate r.2
               (default 0 (list_to_map (M := gmap string Z)
                  (groupby_player sizeZ (filter (λ r, Rank r = 4) dff)) !! r.1))))
    <$> groupby_player sizeZ dff).
  assert (fst <$> frame = players_of dff) as Hfst.
  { unfold frame. rewrite <-list_fmap_compose. apply groupby_player_fst. }
  change (avoidance (leaderboards K bapp_dict dff))
    with (rank_desc K (Q_desc snd) frame).
  split.
  - intros Hgames. apply rank_desc_entry.
    + rewrite Hfst. apply NoDup_players_of.
    + unfold frame. apply list_elem_of_fmap. exists (p, games). split.
      * simpl. by rewrite rank4_lookup.
      * apply elem_of_groupby_player. split; [|done]. simpl.
        apply player_rows_nonempty. intros Hnil. unfold games in Hgames.
        rewrite Hnil in Hgames. done.
  - intros Hgames. apply filter_nil_not_elem. intros x Hx Hname.
    assert (p ∈ players_of dff) as Hp.
    { rewrite <-Hfst, <-rank_desc_name, <-Hname. by apply list_elem_of_fmap_2. }
    apply elem_of_players_of, player_rows_nonempty in Hp.
    unfold games, sizeZ in Hgames. destruct (player_rows dff p); [done|].
    simpl in Hgames. lia.
Qed.

(** C5 on [sample_long_df]: "A" has three games, one of them fourth. *)
Lemma C5_avoidance_rate_witness :
  0 < sizeZ (player_rows (date_mask 10 11 sample_long_df) "A") ∧
  ∃ t, update_ranking_tables stable_kind sample_bapp sample_long_df 10 11
       = Ok t ∧
       ∃ pos, filter (λ x, name x = "A") (avoidance t)
              = [Ranked pos "A" ((inject_Z 3 - inject_Z 1) / inject_Z 3 * 100)%Q].
Proof.
  assert (0 < sizeZ (player_rows (date_mask 10 11 sample_long_df) "A")) as Hgames
    by (vm_compute; reflexivity).
  split; [exact Hgames|].
  destruct (C5_avoidance_rate stable_kind sample_bapp sample_long_df 10 11 "A")
    as (t & Ht & Hline & _).
  exists t. split; [exact Ht|exact (Hline Hgames)].
Defined.

(** ** The point ranking and its gap (C7) *)

Lemma imap_lookup_inv {A B} (f : nat → A → B) (l : list A) i y :
  imap f l !! i = Some y → ∃ x, l !! i = Some x ∧ y = f i x.
Proof.
  rewrite list_lookup_imap. destruct (l !! i) as [x|]; [|done].
  intros [= <-]. by exists x.
Qed.

(** C7. Take a frame with an [int64] [Score] column and a date range with
    at least one row in which every player's [Score] total lies between
    [-2^62] and [2^62], so that neither a total nor a difference of two
    totals leaves 64 bits.  The ranking callback returns, and in its point
    ranking the first line is a leader: no player's [Score] total exceeds
    its [Pt].  The line at 0-based index [i] has position [i + 1], holds a
    player of the range with that player's [Score] total as [Pt], and its
    gap is the leader's total minus its own; the lines are in descending
    order of [Pt], one per player, and the first gap is 0. *)
Theorem C7_point_gap (K : sort_kind) (bapp_dict : gmap string Z)
    (long_df : list row) (start_date end_date : Z) :
  let dff := date_mask start_date end_date long_df in
  let total p := sumZ (Score <$> filter (λ r, Player r = p) dff) in
  Forall (λ r, int64 (Score r)) long_df →
  (∀ p, p ∈ Player <$> dff → - 2 ^ 62 ≤ total p < 2 ^ 62) →
  dff ≠ [] →
  ∃ t leader rest,
    update_ranking_tables K bapp_dict long_df start_date end_date = Ok t ∧
    point_summary t = leader :: rest ∧
    (∀ p, p ∈ Player <$> dff → total p ≤ Pt leader) ∧
    (∀ i x, point_summary t !! i = Some x →
       point_position x = Z.of_nat i + 1 ∧
       point_name x ∈ Player <$> dff ∧
       Pt x = total (point_name x) ∧
       Pt_gap x = Pt leader - Pt x) ∧
    StronglySorted (λ a b, Pt b ≤ Pt a) (point_summary t) ∧
    point_name <$> point_summary t ≡ₚ players_of dff ∧
    Pt_gap leader = 0.
Proof.
  intros dff total _ Hfit Hne.
  exists (leaderboards K bapp_dict dff).
  set (frame := groupby_player (λ g, sum64 (Score <$> g)) dff).
  pose proof (sort_by_perm K _ (Z_desc snd) frame) as Hperm.
  pose proof (sort_by_sorted K _ (Z_desc snd) frame
                (Z_desc_total snd) (Z_desc_trans snd)) as Hsorted.
  assert (point_summary (leaderboards K bapp_dict dff) = point_lines K dff)
    as Htable by done.
  rewrite Htable. unfold point_lines. fold frame.
  destruct (sort_by K (Z_desc snd) frame) as [|top sorted] eqn:Hsort.
  { exfalso. apply Permutation_nil_l in Hperm.
    destruct dff as [|r dff']; [done|].
    assert (Player r ∈ players_of (r :: dff')) as Hin
      by (apply elem_of_players_of; rewrite fmap_cons; left).
    rewrite <-(groupby_player_fst (λ g, sum64 (Score <$> g))) in Hin.
    fold frame in Hin. rewrite <-Hperm in Hin. by apply not_elem_of_nil in Hin. }
  assert (∀ x, x ∈ top :: sorted →
               x.1 ∈ Player <$> dff ∧ x.2 = total x.1 ∧
               - 2 ^ 62 ≤ x.2 < 2 ^ 62) as Hframe.
  { intros x Hx. rewrite Hperm in Hx.
    apply elem_of_groupby_player in Hx as [Hx1 Hx2].
    pose proof (Hfit _ Hx1) as Hb. unfold total in Hb |- *.
    fold (player_rows dff x.1) in Hb |- *.
    split; [done|]. rewrite Hx2, sum64_exact by (unfold int64; lia).
    split; [done|lia]. }
  assert (∀ x, x ∈ top :: sorted → x.2 ≤ top.2) as Htop.
  { intros x [->|Hx]%elem_of_cons; [lia|].
    apply StronglySorted_cons in Hsorted as [Hall _].
    rewrite Forall_forall in Hall. apply Z.leb_le. by apply Hall. }
  assert (∀ x, x ∈ top :: sorted → sub64 top.2 x.2 = top.2 - x.2) as Hgap.
  { intros x Hx. apply wrap64_id.
    destruct (Hframe x Hx) as (_ & _ & Hb).
    destruct (Hframe top ltac:(left)) as (_ & _ & Hb'). unfold int64. lia. }
  cbn [head fmap option_fmap option_map default].
  set (line := λ (i : nat) (r : string * Z),
                PointRow (Z.of_nat i + 1) r.1 r.2 (sub64 top.2 r.2)).
  exists (line 0%nat top), (imap (line ∘ S) sorted).
  split; [apply update_ranking_tables_Ok|].
  split; [done|]. cbn [Pt Pt_gap line].
  split_and!.
  - intros p Hp.
    assert ((p, sum64 (Score <$> player_rows dff p)) ∈ top :: sorted) as Hin
      by (rewrite Hperm; by apply elem_of_groupby_player).
    pose proof (Htop _ Hin) as Hle. destruct (Hframe _ Hin) as (_ & Heq & _).
    simpl in Hle, Heq. by rewrite <-Heq.
  - intros i x Hx.
    apply imap_lookup_inv in Hx as (y & Hy & ->).
    apply list_elem_of_lookup_2 in Hy.
    destruct (Hframe y Hy) as (Hy1 & Hy2 & _). cbn.
    split_and!; [done..|]. by apply Hgap.
  - apply (StronglySorted_fmap_inv Pt (λ a b, b ≤ a)).
    rewrite fmap_imap, (imap_ext _ (const snd)), imap_const by done.
    apply (StronglySorted_fmap _ (λ a b, Z_desc snd a b = true)); [|done].
    intros a b Hab. by apply Z.leb_le.
  - rewrite fmap_imap, (imap_ext _ (const fst)), imap_const by done.
    rewrite Hperm. unfold frame. by rewrite groupby_player_fst.
  - rewrite (Hgap top) by left. lia.
Qed.

(** C7 on [sample_long_df] over both days: "B" leads with 700 points. *)
Lemma C7_point_gap_witness :
  Forall (λ r, int64 (Score r)) sample_long_df ∧
  (∀ p, p ∈ Player <$> date_mask 10 11 sample_long_df →
        - 2 ^ 62 ≤ sumZ (Score <$> filter (λ r, Player r = p)
                                     (date_mask 10 11 sample_long_df)) < 2 ^ 62) ∧
  date_mask 10 11 sample_long_df ≠ [] ∧
  ∃ t leader rest,
    update_ranking_tables stable_kind sample_bapp sample_long_df 10 11 = Ok t ∧
    point_summary t = leader :: rest ∧
    (∀ i x, point_summary t !! i = Some x →
       Pt x = sumZ (Score <$> filter (λ r, Player r = point_name x)
                               (date_mask 10 11 sample_long_df)) ∧
       Pt_gap x = Pt leader - Pt x) ∧
    Pt_gap leader = 0.
Proof.
  assert (Forall (λ r, int64 (Score r)) sample_long_df) as H64
    by (apply (bool_decide_unpack _); vm_compute; exact I).
  assert (∀ p, p ∈ Player <$> date_mask 10 11 sample_long_df →
            - 2 ^ 62 ≤ sumZ (Score <$> filter (λ r, Player r = p)
                                         (date_mask 10 11 sample_long_df))
            < 2 ^ 62) as Hfit.
  { intros p Hp. change (Player <$> date_mask 10 11 sample_long_df)
      with ["B"; "A"; "D"; "C"; "B"; "C"; "D"; "A"; "A"; "B"; "C"; "D"] in Hp.
    repeat (apply elem_of_cons in Hp as [->|Hp]; [vm_compute; split; congruence|]).
    by apply not_elem_of_nil in Hp. }
  assert (date_mask 10 11 sample_long_df ≠ []) as Hne
    by (vm_compute; discriminate).
  split; [exact H64|]. split; [exact Hfit|]. split; [exact Hne|].
  destruct (C7_point_gap stable_kind sample_bapp sample_long_df 10 11
              H64 Hfit Hne)
    as (t & leader & rest & Ht & Htable & _ & Hlines & _ & _ & Hgap).
  exists t, leader, rest. split; [exact Ht|]. split; [exact Htable|].
  split; [|exact Hgap].
  intros i x Hx. destruct (Hlines i x Hx) as (_ & _ & HPt & Hg).
  split; [exact HPt|exact Hg].
Defined.

(** ** Order of the leaderboards (C9) *)

Lemma StronglySorted_filter {A} (R : relation A) (P : A → Prop)
    `{∀ x, Decision (P x)} l :
  StronglySorted R l → StronglySorted R (filter P l).
Proof.
  induction 1 as [|x l Hl IH Hx]; [constructor|].
  rewrite filter_cons. destruct (decide (P x)); [|done].
  constructor; [done|]. apply Forall_forall. intros y [_ Hy]%list_elem_of_filter.
  rewrite Forall_forall in Hx. by apply Hx.
Qed.

Lemma StronglySorted_imap {A B} (R : relation A) (R' : relation B)
    (f : nat → A → B) l :
  (∀ i j x y, R x y → R' (f i x) (f j y)) →
  StronglySorted R l → StronglySorted R' (imap f l).
Proof.
  intros Hf Hl. revert f Hf. induction Hl as [|x l Hl IH Hx]; intros f Hf.
  - constructor.
  - rewrite imap_cons. constructor.
    + apply IH. intros i j a b. apply Hf.
    + apply Forall_forall. intros y (i & a & -> & Ha)%elem_of_lookup_imap.
      apply Hf. rewrite Forall_forall in Hx. apply Hx.
      by apply list_elem_of_lookup_2 in Ha.
Qed.

(** Rows ordered by the key, and in label order within each class of equal
    keys, are in the order of [tie_ordered]. *)
Lemma sorted_classes {A} (le : A → A → bool) (label : A → string) l :
  (∀ x y, le x y = true ∨ le y x = true) →
  StronglySorted (λ a b, le a b = true) l →
  (∀ c, StronglySorted (λ a b, label_lt (label a) (label b))
          (filter (λ y, le c y && le y c) l)) →
  StronglySorted
    (λ a b, le a b = true ∧ (le b a = true → label_lt (label a) (label b))) l.
Proof.
  intros Htot Hl. induction Hl as [|x l Hl IH Hx]; intros Hc; [constructor|].
  constructor.
  - apply IH. intros c. specialize (Hc c). rewrite filter_cons in Hc.
    destruct (decide (le c x && le x c)); [|done].
    by apply StronglySorted_cons in Hc as [_ Hc].
  - apply Forall_forall. intros y Hy. rewrite Forall_forall in Hx.
    split; [by apply Hx|]. intros Hyx. specialize (Hc x).
    assert (le x x = true) as Hxx by (by destruct (Htot x x)).
    rewrite filter_cons_True in Hc by (by rewrite Hxx).
    apply StronglySorted_cons in Hc as [Hc _]. rewrite Forall_forall in Hc.
    apply Hc. apply list_elem_of_filter. split; [|done].
    rewrite (Hx y Hy), Hyx. done.
Qed.

Section tie_facts.
Context (K : sort_kind).

Lemma stable_sort_ties {A} (le : A → A → bool) (label : A → string) frame :
  stable K →
  (∀ x y, le x y = true ∨ le y x = true) →
  (∀ x y z, le x y = true → le y z = true → le x z = true) →
  StronglySorted (λ a b, label_lt (label a) (label b)) frame →
  StronglySorted
    (λ a b, le a b = true ∧ (le b a = true → label_lt (label a) (label b)))
    (sort_by K le frame).
Proof.
  intros Hst Htot Htr Hframe. apply sorted_classes; [done| |].
  - by apply sort_by_sorted.
  - intros c. rewrite Hst by done. by apply StronglySorted_filter.
Qed.

Lemma groupby_player_labels {V} (agg : list row → V) dff :
  StronglySorted (λ a b, label_lt a.1 b.1) (groupby_player agg dff).
Proof.
  apply (StronglySorted_fmap_inv fst label_lt).
  rewrite groupby_player_fst. apply players_of_sorted.
Qed.

Lemma fmap_labels {V W} (f : string * V → string * W) frame :
  (∀ x, (f x).1 = x.1) →
  StronglySorted (λ a b, label_lt a.1 b.1) frame →
  StronglySorted (λ a b, label_lt a.1 b.1) (f <$> frame).
Proof.
  intros Hf. apply StronglySorted_fmap. intros x y. by rewrite !Hf.
Qed.
End tie_facts.

Section order_facts.
Context (K : sort_kind).

Lemma rank_desc_descending {V} (le : string * V → string * V → bool)
    (ge : relation V) frame :
  (∀ x y, le x y = true ↔ ge x.2 y.2) →
  (∀ x y, le x y = true ∨ le y x = true) →
  (∀ x y z, le x y = true → le y z = true → le x z = true) →
  StronglySorted (λ a b, ge (value a) (value b)) (rank_desc K le frame).
Proof.
  intros Hle Htot Htr. unfold rank_desc.
  eapply StronglySorted_imap; [|by apply sort_by_sorted].
  intros i j x y Hxy. simpl. by apply Hle.
Qed.

Lemma rank_desc_tie_ordered {V} (le : string * V → string * V → bool)
    (ge : relation V) frame :
  stable K →
  (∀ x y, le x y = true ↔ ge x.2 y.2) →
  (∀ x y, le x y = true ∨ le y x = true) →
  (∀ x y z, le x y = true → le y z = true → le x z = true) →
  StronglySorted (λ a b, label_lt a.1 b.1) frame →
  tie_ordered (λ a b, ge (value a) (value b)) name (rank_desc K le frame).
Proof.
  intros Hst Hle Htot Htr Hframe. unfold rank_desc, tie_ordered.
  eapply StronglySorted_imap; [|by apply (stable_sort_ties K le fst)].
  intros i j x y [Hxy Hyx]. simpl. split; [by apply Hle|].
  intros Hge. by apply Hyx, Hle.
Qed.

Lemma Z_desc_snd_spec {V} (x y : V * Z) : Z_desc snd x y = true ↔ y.2 ≤ x.2.
Proof. unfold Z_desc. by rewrite Z.leb_le. Qed.

Lemma Q_desc_snd_spec {V} (x y : V * Q) :
  Q_desc snd x y = true ↔ (y.2 <= x.2)%Q.
Proof. unfold Q_desc. by rewrite Qle_bool_iff. Qed.

Lemma point_lines_order dff (R : relation (string * Z)) :
  StronglySorted R (sort_by K (Z_desc snd)
                      (groupby_player (λ g, sum64 (Score <$> g)) dff)) →
  StronglySorted (λ a b, R (point_name a, Pt a) (point_name b, Pt b))
                 (point_lines K dff).
Proof.
  intros HR. unfold point_lines.
  eapply StronglySorted_imap; [|exact HR].
  intros i j [p u] [q v] Hxy. done.
Qed.
End order_facts.

(** C9, as amended.  The ranking callback returns, and each of its four
    leaderboards lists the players of the range once each in descending
    order of its value.  The code names no second sort key: whenever the
    sort keeps rows of equal value in their input order, ties come out in
    ascending label order, because [groupby] hands the players over in that
    order. *)
Theorem C9_leaderboard_order (K : sort_kind) (bapp_dict : gmap string Z)
    (long_df : list row) (start_date end_date : Z) :
  let dff := date_mask start_date end_date long_df in
  ∃ t,
    update_ranking_tables K bapp_dict long_df start_date end_date = Ok t ∧
    leaderboards_descending t ∧
    (point_name <$> point_summary t ≡ₚ players_of dff ∧
     name <$> highest_score t ≡ₚ players_of dff ∧
     name <$> avoidance t ≡ₚ players_of dff ∧
     name <$> uma50 t ≡ₚ players_of dff) ∧
    (stable K → leaderboards_tie_ordered t).
Proof.
  intros dff. exists (leaderboards K bapp_dict dff).
  split; [apply update_ranking_tables_Ok|].
  set (t := leaderboards K bapp_dict dff).
  split_and!.
  - split_and!.
    + apply (point_lines_order K dff (λ a b, b.2 ≤ a.2)).
      eapply StronglySorted_weaken;
        [|apply sort_by_sorted; [apply Z_desc_total|apply Z_desc_trans]].
      intros a b. apply Z_desc_snd_spec.
    + apply (rank_desc_descending K _ (λ u v, v ≤ u));
        [apply Z_desc_snd_spec|apply Z_desc_total|apply Z_desc_trans].
    + apply (rank_desc_descending K _ (λ u v, (v <= u)%Q));
        [apply Q_desc_snd_spec|apply Q_desc_total|apply Q_desc_trans].
    + apply (rank_desc_descending K _ (λ u v, v ≤ u));
        [apply Z_desc_snd_spec|apply Z_desc_total|apply Z_desc_trans].
  - change (point_summary t) with (point_lines K dff). unfold point_lines.
    rewrite fmap_imap, (imap_ext _ (const fst)), imap_const by done.
    by rewrite sort_by_perm, groupby_player_fst.
  - change (highest_score t) with (highest_score_ranking K dff).
    unfold highest_score_ranking. by rewrite rank_desc_name, groupby_player_fst.
  - change (avoidance t) with (avoidance_ranking K dff).
    unfold avoidance_ranking.
    transitivity (fst <$> groupby_player sizeZ dff);
      [|by rewrite groupby_player_fst].
    cbv zeta. rewrite rank_desc_name, <-list_fmap_compose. done.
  - change (uma50 t) with (uma50_ranking K bapp_dict dff).
    unfold uma50_ranking.
    by rewrite rank_desc_name, adjusted_fst, groupby_player_fst.
  - intros Hst. split_and!.
    + apply (point_lines_order K dff
               (λ a b, b.2 ≤ a.2 ∧ (a.2 ≤ b.2 → label_lt a.1 b.1))).
      eapply StronglySorted_weaken;
        [|apply (stable_sort_ties K (Z_desc snd) fst);
          [done|apply Z_desc_total|apply Z_desc_trans|apply groupby_player_labels]].
      intros a b [Hab Hba]. rewrite !Z_desc_snd_spec in *. done.
    + apply (rank_desc_tie_ordered K _ (λ u v, v ≤ u));
        [done|apply Z_desc_snd_spec|apply Z_desc_total|apply Z_desc_trans|].
      apply groupby_player_labels.
    + apply (rank_desc_tie_ordered K _ (λ u v, (v <= u)%Q));
        [done|apply Q_desc_snd_spec|apply Q_desc_total|apply Q_desc_trans|].
      apply fmap_labels; [done|]. apply groupby_player_labels.
    + apply (rank_desc_tie_ordered K _ (λ u v, v ≤ u));
        [done|apply Z_desc_snd_spec|apply Z_desc_total|apply Z_desc_trans|].
      apply fmap_labels; [done|]. apply groupby_player_labels.
Qed.

(** C9 with the stable sort on [sample_long_df]. *)
Lemma C9_leaderboard_order_witness :
  stable stable_kind ∧
  ∃ t, update_ranking_tables stable_kind sample_bapp sample_long_df 10 11
       = Ok t ∧ leaderboards_tie_ordered t.
Proof.
  split; [exact stable_kind_stable|].
  destruct (C9_leaderboard_order stable_kind sample_bapp sample_long_df 10 11)
    as (t & Ht & _ & _ & Hties).
  exists t. split; [exact Ht|exact (Hties stable_kind_stable)].
Defined.

(** C9 as stated fails on the game with scores 0, 0, 1, 1: the descending
    sort puts "D" before "C", which both have 1 point, and "B" before "A",
    which both have none. *)
Lemma C9_ties_not_by_label :
  load reversing_kind two_pairs = Ok two_pairs_long_df ∧
  ∃ t, update_ranking_tables reversing_kind ∅ two_pairs_long_df 0 0 = Ok t ∧
       point_summary t
       = [PointRow 1 "D" 1 0; PointRow 2 "C" 1 0;
          PointRow 3 "B" 0 1; PointRow 4 "A" 0 1] ∧
       ¬ leaderboards_tie_ordered t.
Proof.
  split; [vm_compute; reflexivity|].
  eexists. split; [vm_compute; reflexivity|].
  split; [reflexivity|].
  intros [Hpoint _]. cbn [point_summary] in Hpoint.
  apply StronglySorted_cons in Hpoint as [Hfirst _].
  apply Forall_cons in Hfirst as [[_ Hlabel] _].
  specialize (Hlabel ltac:(simpl; lia)). vm_compute in Hlabel. done.
Qed.

(** ** The cumulative series (C4) *)

Lemma cumsum64_lookup_S acc l i a u :
  cumsum64 acc l !! i = Some a → l !! S i = Some u →
  cumsum64 acc l !! S i = Some (add64 a u).
Proof.
  revert acc i. induction l as [|x l IH]; intros acc i; [done|].
  destruct i as [|i]; simpl.
  - intros [= <-]. destruct l as [|y l]; [done|]. simpl. by intros [= <-].
  - apply IH.
Qed.

Lemma group_cumsum_cells acc frame :
  daily_cells <$> group_cumsum acc frame = frame.
Proof.
  revert acc. induction frame as [|[[d q] u] frame IH]; intros acc; [done|].
  simpl. by rewrite IH.
Qed.

(** The running total of one label only looks at that label's rows. *)
Lemma group_cumsum_player acc frame p :
  UmaScore_cumsum <$> filter (λ x, daily_Player x = p) (group_cumsum acc frame)
  = cumsum64 (default 0 (acc !! p)) (snd <$> filter (λ y, y.1.2 = p) frame).
Proof.
  revert acc. induction frame as [|[[d q] u] frame IH]; intros acc; [done|].
  cbn [group_cumsum]. rewrite !filter_cons. cbn [daily_Player fst snd].
  destruct (decide (q = p)) as [->|Hq].
  - rewrite !fmap_cons. cbn [cumsum64 UmaScore_cumsum snd]. f_equal.
    rewrite IH. by rewrite lookup_insert_eq.
  - rewrite IH. by rewrite lookup_insert_ne.
Qed.

Lemma filter_fmap_cells p (series : list daily_row) :
  daily_cells <$> filter (λ x, daily_Player x = p) series
  = filter (λ y, y.1.2 = p) (daily_cells <$> series).
Proof.
  induction series as [|x series IH]; [done|].
  rewrite fmap_cons, !filter_cons. cbn [daily_cells fst snd].
  destruct (decide (daily_Player x = p)); [|done].
  by rewrite fmap_cons, IH.
Qed.

Lemma StronglySorted_Forall {A} (R : relation A) (P : A → Prop) l :
  StronglySorted R l → Forall P l →
  StronglySorted (λ a b, R a b ∧ P a ∧ P b) l.
Proof.
  induction 1 as [|x l Hl IH Hx]; [constructor|].
  intros [Hpx Hpl]%Forall_cons. constructor; [by apply IH|].
  rewrite Forall_forall in Hx, Hpl. apply Forall_forall. intros y Hy.
  split_and!; [by apply Hx|done|by apply Hpl].
Qed.

Lemma date_asc_total a b : date_asc a b = true ∨ date_asc b a = true.
Proof. unfold date_asc. rewrite !Z.leb_le. lia. Qed.

Lemma date_asc_trans a b c :
  date_asc a b = true → date_asc b c = true → date_asc a c = true.
Proof. unfold date_asc. rewrite !Z.leb_le. lia. Qed.

Lemma daily_sum_fst dff :
  fst <$> daily_sum dff ≡ₚ remove_dups (day_key <$> dff).
Proof.
  unfold daily_sum. rewrite <-list_fmap_compose.
  etrans; [|apply (insertion_sort_perm day_key_leb)].
  by rewrite <-(list_fmap_id (insertion_sort _ _)) at 2.
Qed.

Lemma elem_of_daily_sum dff y :
  y ∈ daily_sum dff →
  y.2 = sum64 (UmaScore <$> filter (λ r, day_key r = y.1) dff).
Proof. unfold daily_sum. by intros (k & -> & _)%list_elem_of_fmap. Qed.

Lemma day_rows (dff : list row) d p :
  filter (λ r, day_key r = (d, p)) dff
  = filter (λ r, Date r = d ∧ Player r = p) dff.
Proof.
  unfold day_key. apply list_filter_iff. intros r.
  split; [by intros [= -> ->]|by intros [-> ->]].
Qed.

(** C4. Take a frame with an [int64] [UmaScore] column.  In the cumulative
    series of a date range, the lines of one player, in output order, have
    strictly ascending dates, one line per date on which the player has a
    row in range.  The daily total of a line is the sum of [UmaScore] over
    the player's rows of that date, and the cumulative value of each line
    after the first is the previous cumulative value plus the line's daily
    total, both as the [int64] numpy holds them in: the sum itself whenever
    it fits 64 bits.  The first cumulative value is the first daily total.
    Only the player's own rows enter. *)
Theorem C4_cumulative_series (K : sort_kind) (long_df : list row)
    (start_date end_date : Z) (p : string) :
  let dff := date_mask start_date end_date long_df in
  let mine := filter (λ x, daily_Player x = p)
                (update_daily_uma_graph K long_df start_date end_date) in
  let day d :=
    sumZ (UmaScore <$> filter (λ r, Date r = d ∧ Player r = p) dff) in
  Forall (λ r, int64 (UmaScore r)) long_df →
  StronglySorted Z.lt (daily_Date <$> mine) ∧
  (∀ d, d ∈ daily_Date <$> mine ↔ ∃ r, r ∈ dff ∧ Date r = d ∧ Player r = p) ∧
  (∀ x, x ∈ mine →
     daily_UmaScore x = wrap64 (day (daily_Date x)) ∧
     (int64 (day (daily_Date x)) → daily_UmaScore x = day (daily_Date x))) ∧
  UmaScore_cumsum <$> mine = cumsum64 0 (daily_UmaScore <$> mine) ∧
  (∀ i a b, mine !! i = Some a → mine !! S i = Some b →
     UmaScore_cumsum b = wrap64 (UmaScore_cumsum a + daily_UmaScore b) ∧
     (int64 (UmaScore_cumsum a + daily_UmaScore b) →
      UmaScore_cumsum b = UmaScore_cumsum a + daily_UmaScore b)) ∧
  (∀ a, mine !! 0%nat = Some a → UmaScore_cumsum a = daily_UmaScore a).
Proof.
  intros dff mine day _.
  set (sorted := sort_by K date_asc (daily_sum dff)).
  assert (mine = filter (λ x, daily_Player x = p) (group_cumsum ∅ sorted))
    as Hmine by done.
  assert (daily_cells <$> mine = filter (λ y, y.1.2 = p) sorted) as Hcells.
  { by rewrite Hmine, filter_fmap_cells, group_cumsum_cells. }
  assert (sorted ≡ₚ daily_sum dff) as Hperm by apply sort_by_perm.
  assert (∀ x, x ∈ mine → daily_Player x = p ∧ daily_cells x ∈ daily_sum dff)
    as Hin.
  { intros x Hx. split.
    - rewrite Hmine in Hx. by apply list_elem_of_filter in Hx as [? _].
    - rewrite <-Hperm. apply (list_elem_of_fmap_2 daily_cells) in Hx.
      rewrite Hcells in Hx. by apply list_elem_of_filter in Hx as [_ ?]. }
  assert (UmaScore_cumsum <$> mine = cumsum64 0 (daily_UmaScore <$> mine)) as Hcum.
  { rewrite Hmine at 1. rewrite group_cumsum_player, lookup_empty. simpl.
    rewrite <-Hcells, <-list_fmap_compose. done. }
  assert (∀ x, x ∈ mine → daily_UmaScore x = wrap64 (day (daily_Date x)))
    as Hday.
  { intros x Hx. destruct (Hin x Hx) as [Hp Hd].
    apply elem_of_daily_sum in Hd. simpl in Hd.
    unfold day. by rewrite Hd, sum64_spec, Hp, day_rows. }
  split_and!.
  - assert (StronglySorted (λ a b, (a.1.1 ≤ b.1.1 ∧ a.1 ≠ b.1) ∧ a.1.2 = p ∧ b.1.2 = p)
              (filter (λ y, y.1.2 = p) sorted)) as Hs.
    { apply StronglySorted_Forall.
      - apply StronglySorted_filter.
        apply (StronglySorted_NoDup_strict fst (λ a b, a.1.1 ≤ b.1.1)).
        + eapply StronglySorted_weaken;
            [|apply sort_by_sorted; [apply date_asc_total|apply date_asc_trans]].
          intros a b Hab. by apply Z.leb_le.
        + unfold sorted. rewrite sort_by_perm, daily_sum_fst.
          apply NoDup_remove_dups.
      - apply Forall_forall. by intros y [? _]%list_elem_of_filter. }
    rewrite <-Hcells in Hs.
    assert (daily_Date <$> mine = (λ y : Z * string * Z, y.1.1) <$> (daily_cells <$> mine))
      as -> by (by rewrite <-list_fmap_compose).
    eapply StronglySorted_fmap; [|exact Hs].
    intros [[d1 q1] u1] [[d2 q2] u2]. simpl. intros [[Hle Hne] [-> ->]].
    destruct (decide (d1 = d2)) as [->|]; [done|lia].
  - intros d. rewrite list_elem_of_fmap. split.
    + intros (x & -> & Hx). apply Hin in Hx as [Hp Hx].
      apply (list_elem_of_fmap_2 fst) in Hx. rewrite daily_sum_fst in Hx.
      apply elem_of_remove_dups, list_elem_of_fmap in Hx as (r & Hk & Hr).
      exists r. injection Hk as Hd Hq. split; [done|]. split; congruence.
    + intros (r & Hr & <- & Hp).
      assert ((Date r, p) ∈ fst <$> sorted) as Hk.
      { unfold sorted. rewrite sort_by_perm, daily_sum_fst, elem_of_remove_dups.
        apply list_elem_of_fmap. exists r. split; [|done].
        unfold day_key. by rewrite Hp. }
      apply list_elem_of_fmap in Hk as ([[d q] u] & [= <- <-] & Hy).
      assert ((Date r, p, u) ∈ daily_cells <$> mine) as Hm.
      { rewrite Hcells. by apply list_elem_of_filter. }
      apply list_elem_of_fmap in Hm as (x & Hx & Hm). exists x.
      split; [|done]. by injection Hx as -> _ _.
  - intros x Hx. split; [by apply Hday|].
    intros Hfit. by rewrite Hday, wrap64_id.
  - done.
  - intros i a b Ha Hb.
    assert (cumsum64 0 (daily_UmaScore <$> mine) !! S i
            = Some (add64 (UmaScore_cumsum a) (daily_UmaScore b))) as Hs.
    { apply cumsum64_lookup_S.
      - by rewrite <-Hcum, list_lookup_fmap, Ha.
      - by rewrite list_lookup_fmap, Hb. }
    rewrite <-Hcum, list_lookup_fmap, Hb in Hs. injection Hs as Hs.
    split; [done|]. intros Hfit. by rewrite Hs, <-(wrap64_id _ Hfit).
  - intros a Ha. destruct mine as [|a' mine'] eqn:Hm; [done|].
    injection Ha as ->. rewrite !fmap_cons in Hcum. simpl in Hcum.
    injection Hcum as Hcum _. rewrite Hcum. unfold add64. simpl.
    rewrite (Hday a) by left. apply wrap64_wrap64.
Qed.

(** C4 on [sample_long_df]: the two days of player "A". *)
Lemma C4_cumulative_series_witness :
  Forall (λ r, int64 (UmaScore r)) sample_long_df ∧
  filter (λ x, daily_Player x = "A")
    (update_daily_uma_graph stable_kind sample_long_df 10 11)
  = [DailyRow 10 "A" 260 260; DailyRow 11 "A" 100 360] ∧
  UmaScore_cumsum
    <$> filter (λ x, daily_Player x = "A")
          (update_daily_uma_graph stable_kind sample_long_df 10 11)
  = cumsum64 0
      (daily_UmaScore
         <$> filter (λ x, daily_Player x = "A")
               (update_daily_uma_graph stable_kind sample_long_df 10 11)).
Proof.
  assert (Forall (λ r, int64 (UmaScore r)) sample_long_df) as H64
    by (apply (bool_decide_unpack _); vm_compute; exact I).
  split; [exact H64|]. split; [vm_compute; reflexivity|].
  destruct (C4_cumulative_series stable_kind sample_long_df 10 11 "A" H64)
    as (_ & _ & _ & Hcum & _).
  exact Hcum.
Defined.

(** ** An empty date range (C6) *)

(** C6. Take a frame with [int64] score columns and a date range without
    any of its rows.  None of the three callbacks raises: the ranking
    callback returns four empty leaderboards, its [iloc[0]] being skipped
    by the guard on the empty point ranking; the series callback returns an
    empty series; and the summary callback returns the report without
    player columns and without rank-rate lines, [int] being applied to none
    of its seven fixed labels. *)
Theorem C6_empty_range (K : sort_kind) (bapp_dict : gmap string Z)
    (long_df : list row) (start_date end_date : Z) :
  int64_frame long_df →
  date_mask start_date end_date long_df = [] →
  update_ranking_tables K bapp_dict long_df start_date end_date
    = Ok (RankingTables [] [] [] []) ∧
  update_daily_uma_graph K long_df start_date end_date = [] ∧
  update_summary_table bapp_dict long_df start_date end_date = Ok empty_report.
Proof.
  intros _ Hempty.
  unfold update_ranking_tables, update_daily_uma_graph, update_summary_table.
  rewrite Hempty. split_and!.
  - unfold point_ranking, highest_score_ranking, avoidance_ranking,
      uma50_ranking, rank_desc.
    cbn. rewrite !sort_by_nil. done.
  - unfold daily_uma. cbn. by rewrite sort_by_nil.
  - reflexivity.
Qed.

(** C6 on [sample_long_df]: no game between days 50 and 60. *)
Lemma C6_empty_range_witness :
  int64_frame sample_long_df ∧
  date_mask 50 60 sample_long_df = [] ∧
  update_ranking_tables stable_kind sample_bapp sample_long_df 50 60
    = Ok (RankingTables [] [] [] []) ∧
  update_daily_uma_graph stable_kind sample_long_df 50 60 = [] ∧
  update_summary_table sample_bapp sample_long_df 50 60 = Ok empty_report.
Proof.
  assert (int64_frame sample_long_df) as H64
    by (apply (bool_decide_unpack _); vm_compute; exact I).
  assert (date_mask 50 60 sample_long_df = []) as Hempty by reflexivity.
  split; [exact H64|]. split; [exact Hempty|].
  exact (C6_empty_range stable_kind sample_bapp sample_long_df 50 60
           H64 Hempty).
Defined.

(** ** Rounding to [float64] *)

Lemma rint_bound q : (- (1 # 2) <= inject_Z (rint q) - q <= 1 # 2)%Q.
Proof.
  unfold rint. cbv zeta. pose proof (Qfloor_le q) as Hlo. pose proof (Qlt_floor q) as Hhi.
  rewrite inject_Z_plus in Hhi. change (inject_Z 1) with 1%Q in Hhi.
  destruct (Qcompare_spec (q - inject_Z (Qfloor q)) (1 # 2)) as [He|Hl|Hg].
  - destruct (Z.even (Qfloor q)); rewrite ?inject_Z_plus;
      change (inject_Z 1) with 1%Q; split; lra.
  - split; lra.
  - rewrite inject_Z_plus. change (inject_Z 1) with 1%Q. split; lra.
Qed.

Lemma rint_proper q q' : (q == q')%Q → rint q = rint q'.
Proof.
  intros Hq. unfold rint. cbv zeta. rewrite (Qfloor_comp _ _ Hq).
  assert ((q - inject_Z (Qfloor q') ?= 1 # 2) = (q' - inject_Z (Qfloor q') ?= 1 # 2))%Q
    as -> by (by rewrite Hq).
  done.
Qed.

Lemma rint_inject_Z z : rint (inject_Z z) = z.
Proof.
  pose proof (rint_bound (inject_Z z)) as [Hlo Hhi].
  generalize dependent (rint (inject_Z z)). intros r Hlo Hhi.
  assert (inject_Z (r - z) <= 1 # 2)%Q as H1
    by (unfold Z.sub; rewrite inject_Z_plus, inject_Z_opp; lra).
  assert (- (1 # 2) <= inject_Z (r - z))%Q as H2
    by (unfold Z.sub; rewrite inject_Z_plus, inject_Z_opp; lra).
  unfold Qle, inject_Z in H1, H2. simpl in H1, H2. lia.
Qed.

Lemma pow2_pos e : (0 < pow2 e)%Q.
Proof. apply Qpower_0_lt. done. Qed.

Lemma pow2_plus a b : (pow2 (a + b) == pow2 a * pow2 b)%Q.
Proof. apply Qpower_plus. done. Qed.

Lemma pow2_inject (n : Z) : 0 ≤ n → (pow2 n == inject_Z (2 ^ n))%Q.
Proof. intros Hn. unfold pow2. by rewrite Zpower_Qpower. Qed.

(** [ilog2] does not overshoot. *)
Lemma ilog2_lower q : ¬ (q == 0)%Q → (pow2 (ilog2 q) <= Qabs q)%Q.
Proof.
  intros Hq. unfold ilog2. cbv zeta.
  destruct (Qle_bool _ _) eqn:Hle; [by apply Qle_bool_iff|]. clear Hle.
  destruct q as [a b]. cbn [Qnum Qden].
  assert (a ≠ 0) as Ha by (intros ->; by apply Hq).
  set (la := Z.log2 (Z.abs a)). set (lb := Z.log2 (Z.pos b)).
  assert (2 ^ la ≤ Z.abs a) as Hla by (apply Z.log2_spec; lia).
  assert (Z.pos b < 2 ^ (lb + 1)) as Hlb.
  { replace (lb + 1) with (Z.succ lb) by lia. apply Z.log2_spec. lia. }
  assert (0 ≤ la) as Hla0 by apply Z.log2_nonneg.
  assert (0 ≤ lb) as Hlb0 by apply Z.log2_nonneg.
  assert (pow2 (la - lb - 1) * inject_Z (2 ^ (lb + 1)) == inject_Z (2 ^ la))%Q
    as Hpow.
  { rewrite <-!pow2_inject by lia. rewrite <-pow2_plus. f_equiv. lia. }
  assert (Qabs (a # b) == inject_Z (Z.abs a) / inject_Z (Z.pos b))%Q as ->.
  { unfold Qabs. rewrite (Qmake_Qdiv (Z.abs a) b). done. }
  apply Qle_shift_div_l; [unfold Qlt; simpl; lia|].
  pose proof (pow2_pos (la - lb - 1)) as Hp.
  assert (inject_Z (Z.pos b) <= inject_Z (2 ^ (lb + 1)))%Q as Hb
    by (rewrite <-Zle_Qle; lia).
  assert (inject_Z (2 ^ la) <= inject_Z (Z.abs a))%Q as Ha'
    by (by rewrite <-Zle_Qle).
  assert (pow2 (la - lb - 1) * inject_Z (Z.pos b)
          <= pow2 (la - lb - 1) * inject_Z (2 ^ (lb + 1)))%Q as Hmul.
  { rewrite !(Qmult_comm (pow2 _)). apply Qmult_le_compat_r; [done|lra]. }
  lra.
Qed.

(** Half an [ulp] of [q] is at most [|q| / 2 ^ 53]. *)
Lemma half_ulp q :
  ¬ (q == 0)%Q → (pow2 (ilog2 q - 52) * (1 # 2) <= Qabs q * u53)%Q.
Proof.
  intros Hq. pose proof (ilog2_lower q Hq) as Hlo.
  assert (pow2 (ilog2 q - 52) * (1 # 2) == pow2 (ilog2 q) * u53)%Q as ->.
  { replace (ilog2 q - 52) with (ilog2 q + - 52) by lia.
    rewrite pow2_plus. unfold u53.
    assert (pow2 (- 52) == 1 # 4503599627370496)%Q as -> by reflexivity.
    rewrite <-Qmult_assoc. by f_equiv. }
  apply Qmult_le_compat_r; [done|unfold u53; lra].
Qed.

(** The relative error of one rounding. *)
Lemma fl_error q : (Qabs (fl q - q) <= Qabs q * u53)%Q.
Proof.
  unfold fl. destruct (Qeq_bool q 0) eqn:Hz.
  - apply Qeq_bool_iff in Hz. rewrite Hz. by vm_compute.
  - assert (¬ (q == 0)%Q) as Hq by (by apply Qeq_bool_neq).
    cbv zeta. set (ulp := pow2 (ilog2 q - 52)).
    pose proof (pow2_pos (ilog2 q - 52)) as Hulp. fold ulp in Hulp.
    pose proof (rint_bound (q / ulp)) as [Hlo Hhi].
    pose proof (half_ulp q Hq) as Hhalf. fold ulp in Hhalf.
    assert (inject_Z (rint (q / ulp)) * ulp - q
            == (inject_Z (rint (q / ulp)) - q / ulp) * ulp)%Q as ->.
    { field. lra. }
    apply Qabs_Qle_condition.
    set (d := (inject_Z (rint (q / ulp)) - q / ulp)%Q) in *.
    assert (d * ulp <= (1 # 2) * ulp)%Q
      by (apply Qmult_le_compat_r; [done|lra]).
    assert (- (1 # 2) * ulp <= d * ulp)%Q
      by (apply Qmult_le_compat_r; [done|lra]).
    split; lra.
Qed.

Lemma fl_error_bound q B :
  (- B <= q <= B)%Q → (- (B * u53) <= fl q - q <= B * u53)%Q.
Proof.
  intros Hq. apply Qabs_Qle_condition.
  eapply Qle_trans; [apply fl_error|]. apply Qmult_le_compat_r.
  - by apply Qabs_Qle_condition.
  - by vm_compute.
Qed.

Lemma fl_zero q : (q == 0)%Q → fl q = 0%Q.
Proof. intros Hq. unfold fl. apply Qeq_bool_iff in Hq. by rewrite Hq. Qed.

(** Integers below [2 ^ 53] are [float64] numbers. *)
Lemma to_float_exact z :
  Z.abs z < 2 ^ 53 → (to_float z == inject_Z z)%Q.
Proof.
  intros Hz. unfold to_float, fl.
  destruct (Qeq_bool (inject_Z z) 0) eqn:Hz0.
  - apply Qeq_bool_iff in Hz0. by rewrite Hz0.
  - assert (¬ (inject_Z z == 0)%Q) as Hq by (by apply Qeq_bool_neq).
    cbv zeta. set (e := ilog2 (inject_Z z)).
    assert (e ≤ 52) as He.
    { pose proof (ilog2_lower _ Hq) as Hlo. fold e in Hlo.
      assert (Qabs (inject_Z z) < pow2 53)%Q as Hhi.
      { rewrite pow2_inject by lia.
        change (Qabs (inject_Z z)) with (inject_Z (Z.abs z)).
        by rewrite <-Zlt_Qlt. }
      assert (pow2 e < pow2 53)%Q as Hlt by lra.
      apply Qpower_lt_compat_l_inv in Hlt; [lia|done]. }
    assert (inject_Z z / pow2 (e - 52) == inject_Z (z * 2 ^ (52 - e)))%Q as Hint.
    { rewrite inject_Z_mult, <-pow2_inject by lia.
      replace (52 - e) with (- (e - 52)) by lia.
      unfold pow2. rewrite Qpower_opp. field.
      apply Qpower_not_0. done. }
    rewrite (rint_proper _ _ Hint), rint_inject_Z.
    rewrite inject_Z_mult, <-pow2_inject by lia.
    rewrite <-Qmult_assoc, <-pow2_plus.
    replace (52 - e + (e - 52)) with 0 by lia.
    change (pow2 0) with 1%Q. ring.
Qed.

(** The rate shown for [c] of [n] games: at most half a hundredth, and the
    error of five roundings, away from the percentage. *)
Lemma rate_error (c n : Z) :
  0 ≤ c ≤ n → 0 < n < 2 ^ 53 →
  (- ((1 # 200) + (1 # 1000000000000))
   <= round2 (fmul (fdiv (to_float c) (to_float n)) 100)
      - inject_Z c / inject_Z n * 100
   <= (1 # 200) + (1 # 1000000000000))%Q.
Proof.
  intros Hc Hn.
  set (t := (inject_Z c / inject_Z n)%Q).
  assert (0 < inject_Z n)%Q as Hn0 by (change 0%Q with (inject_Z 0); rewrite <-Zlt_Qlt; lia).
  assert (0 <= t <= 1)%Q as Ht.
  { unfold t. split.
    - apply Qle_shift_div_l; [done|]. rewrite Qmult_0_l.
      change 0%Q with (inject_Z 0). rewrite <-Zle_Qle. lia.
    - apply Qle_shift_div_r; [done|]. rewrite Qmult_1_l.
      rewrite <-Zle_Qle. lia. }
  assert (to_float c / to_float n == t)%Q as Ha.
  { unfold t. rewrite !to_float_exact by lia. done. }
  unfold round2, fmul, fdiv.
  set (a := (to_float c / to_float n)%Q) in *.
  set (x1 := fl a).
  pose proof (fl_error_bound a 1 ltac:(lra)) as H1. fold x1 in H1.
  set (x2 := fl (x1 * 100)).
  pose proof (fl_error_bound (x1 * 100) 200 ltac:(unfold u53 in *; lra)) as H2.
  fold x2 in H2.
  set (x3 := fl (x2 * 100)).
  pose proof (fl_error_bound (x2 * 100) 40000 ltac:(unfold u53 in *; lra)) as H3.
  fold x3 in H3.
  pose proof (rint_bound x3) as Hk.
  set (k := inject_Z (rint x3)) in *.
  pose proof (fl_error_bound (k / 100) 401
                ltac:(unfold u53, Qdiv in *;
                      change (/ 100)%Q with (1 # 100)%Q; lra)) as H4.
  unfold u53, Qdiv in *. change (/ 100)%Q with (1 # 100)%Q in *.
  split; lra.
Qed.

Lemma rate_zero (n : Z) :
  round2 (fmul (fdiv (to_float 0) (to_float n)) 100) = 0%Q.
Proof.
  unfold round2, fmul, fdiv.
  assert (fl (to_float 0 / to_float n) = 0%Q) as ->.
  { apply fl_zero. change (to_float 0) with 0%Q. unfold Qdiv. ring. }
  reflexivity.
Qed.

(** Errors of at most [tol] per term add up. *)
Lemma sumQ_error {A} (f g : A → Q) (tol : Q) (l : list A) :
  (∀ x, x ∈ l → - tol <= g x - f x <= tol)%Q →
  (- (inject_Z (sizeZ l) * tol)
   <= sumQ (g <$> l) - sumQ (f <$> l)
   <= inject_Z (sizeZ l) * tol)%Q.
Proof.
  induction l as [|x l IH]; intros Hl.
  - change (inject_Z (sizeZ (@nil A))) with 0%Q. rewrite !fmap_nil.
    cbn [sumQ foldr]. split; lra.
  - destruct IH as [IHlo IHhi]; [intros y Hy; apply Hl; by right|].
    destruct (Hl x ltac:(left)) as [Hlo Hhi].
    unfold sizeZ in *. rewrite !fmap_cons. cbn [length sumQ foldr].
    rewrite Nat2Z.inj_succ, <-Z.add_1_r, inject_Z_plus.
    change (inject_Z 1) with 1%Q.
    fold (sumQ (g <$> l)). fold (sumQ (f <$> l)).
    split; lra.
Qed.

(** ** Sums and counts *)

Lemma sumQ_percent (cnt : Z → Z) (g : Z) (cs : list Z) :
  (sumQ ((λ c, inject_Z (cnt c) / inject_Z g * 100) <$> cs)
   == inject_Z (sumZ (cnt <$> cs)) / inject_Z g * 100)%Q.
Proof.
  induction cs as [|c cs IH].
  - simpl. unfold Qdiv. ring.
  - rewrite !fmap_cons. cbn [sumQ sumZ foldr].
    fold (sumZ (cnt <$> cs)).
    fold (sumQ ((λ c, inject_Z (cnt c) / inject_Z g * 100)%Q <$> cs)).
    rewrite IH, inject_Z_plus. unfold Qdiv. ring.
Qed.

Lemma sumZ_cons x l : sumZ (x :: l) = x + sumZ l.
Proof. done. Qed.

Lemma sumZ_fmap_ext {A} (f g : A → Z) l :
  (∀ x, x ∈ l → f x = g x) → sumZ (f <$> l) = sumZ (g <$> l).
Proof.
  intros Hfg. f_equal. apply list_fmap_ext. intros i x Hx. apply Hfg.
  by apply list_elem_of_lookup_2 in Hx.
Qed.

Lemma sumZ_fmap_add {A} (f g : A → Z) l :
  sumZ ((λ x, f x + g x) <$> l) = sumZ (f <$> l) + sumZ (g <$> l).
Proof.
  induction l as [|x l IH]; [done|]. rewrite !fmap_cons, !sumZ_cons, IH. lia.
Qed.

Lemma sumZ_indicator (c : Z) cs :
  NoDup cs → c ∈ cs →
  sumZ ((λ c', if decide (c = c') then 1 else 0) <$> cs) = 1.
Proof.
  induction cs as [|c' cs IH]; [by intros _ ?%not_elem_of_nil|].
  intros [Hc Hnd]%NoDup_cons Hin. rewrite fmap_cons, sumZ_cons.
  destruct (decide (c = c')) as [<-|Hne].
  - rewrite (sumZ_fmap_ext _ (λ _, 0)).
    + clear. induction cs as [|? cs IH]; [done|].
      rewrite fmap_cons, sumZ_cons. lia.
    + intros x Hx. case_decide; [congruence|done].
  - apply elem_of_cons in Hin as [?|Hin]; [done|]. by rewrite IH.
Qed.

(** Counting the rows of each class of a partition counts every row once. *)
Lemma sum_class_sizes {A} (f : A → Z) (cs : list Z) (l : list A) :
  NoDup cs → (∀ x, x ∈ l → f x ∈ cs) →
  sumZ ((λ c, sizeZ (filter (λ x, f x = c) l)) <$> cs) = sizeZ l.
Proof.
  intros Hnd. induction l as [|x l IH]; intros Hcs.
  - rewrite (sumZ_fmap_ext _ (λ _, 0)) by done.
    clear. induction cs as [|? cs IH]; [done|].
    rewrite fmap_cons, sumZ_cons, IH. done.
  - rewrite (sumZ_fmap_ext _
      (λ c, (if decide (f x = c) then 1 else 0)
            + sizeZ (filter (λ y, f y = c) l))).
    + rewrite sumZ_fmap_add, IH, sumZ_indicator.
      * unfold sizeZ. cbn [length]. lia.
      * done.
      * apply Hcs. left.
      * intros y Hy. apply Hcs. by right.
    + intros c _. rewrite filter_cons. unfold sizeZ.
      case_decide; cbn [length]; lia.
Qed.

Lemma rank_ct_rows dff p rank :
  rank_ct dff p rank = sizeZ (filter (λ r, Rank r = rank) (player_rows dff p)).
Proof.
  unfold rank_ct, player_rows. rewrite list_filter_filter. f_equal. f_equal.
  apply list_filter_iff. intros r. tauto.
Qed.

(** The denominator of the rank rates is the player's number of rows. *)
Lemma rank_ct_total dff p :
  sumZ (rank_ct dff p <$> ranks_of dff) = sizeZ (player_rows dff p).
Proof.
  rewrite <-(sum_class_sizes Rank (ranks_of dff) (player_rows dff p)).
  - f_equal. apply list_fmap_ext. intros i c _. apply rank_ct_rows.
  - apply NoDup_ranks_of.
  - intros r [_ Hr]%list_elem_of_filter. apply elem_of_ranks_of.
    by apply list_elem_of_fmap_2.
Qed.

(** ** Layout of the long form *)

Lemma melt_columns_length df :
  Forall (λ l : list Long.row, length l = length (game_records df))
    (imap (λ j name,
       imap (λ i rec, Long.Row (Z.of_nat i) rec.1 name (nth j rec.2 0))
            (game_records df)) (player_columns df)).
Proof.
  apply Forall_forall. intros l (j' & name' & -> & _)%elem_of_lookup_imap.
  apply length_imap.
Qed.

Lemma length_melt df :
  length (melt df)
  = (length (player_columns df) * length (game_records df))%nat.
Proof.
  unfold melt.
  rewrite length_join, (sum_list_fmap_same (length (game_records df)))
    by apply melt_columns_length.
  by rewrite length_imap.
Qed.

(** X1. [melt] lays the table out column by column: with [n] games, the
    row at index [j * n + i] is game [i] of player column [j], with that
    game's date and the cell of that column; the frame has one row per
    cell position. *)
Theorem X1_melt_layout (df : raw_table) (j i : nat) (name : string)
    (rec : Z * list Z) :
  player_columns df !! j = Some name →
  game_records df !! i = Some rec →
  melt df !! (j * length (game_records df) + i)%nat
    = Some (Long.Row (Z.of_nat i) rec.1 name (nth j rec.2 0)) ∧
  length (melt df)
    = (length (player_columns df) * length (game_records df))%nat.
Proof.
  intros Hj Hi. split; [|apply length_melt]. unfold melt.
  apply (join_lookup_Some_same_length' _ _ _ _ _ (melt_columns_length df)).
  - by apply lookup_lt_Some in Hi.
  - eexists. split.
    + rewrite list_lookup_imap, Hj. reflexivity.
    + rewrite list_lookup_imap, Hi. reflexivity.
Qed.

Lemma X1_melt_layout_witness :
  player_columns sample_scores !! 1%nat = Some "B" ∧
  game_records sample_scores !! 2%nat = Some (11, [0; 0; 0; 0]) ∧
  melt sample_scores !! 5%nat = Some (Long.Row 2 11 "B" 0).
Proof.
  split; [reflexivity|]. split; [reflexivity|].
  exact (proj1 (X1_melt_layout sample_scores 1 2 "B" (11, [0; 0; 0; 0])
                  eq_refl eq_refl)).
Defined.

(** ** What loading keeps *)

(** Grouping by a key and concatenating the groups rearranges the rows. *)
Lemma eq_reflexive_perm {A} (l1 l2 : list A) : l1 = l2 → l1 ≡ₚ l2.
Proof. by intros ->. Qed.

Lemma join_groups_perm {A B} `{EqDecision B} (key : A → B) (keys : list B)
    (l : list A) :
  NoDup keys → (∀ x, x ∈ l → key x ∈ keys) →
  mjoin ((λ k, filter (λ x, key x = k) l) <$> keys) ≡ₚ l.
Proof.
  intros Hnd. revert l. induction Hnd as [|k keys Hk Hnd IH]; intros l Hl.
  - destruct l as [|x l]; [done|]. by destruct (not_elem_of_nil (key x)); apply Hl; left.
  - rewrite fmap_cons.
    etrans; [|apply (filter_app_complement (λ x, key x = k) l)].
    change (mjoin (?a :: ?b)) with (a ++ mjoin b). apply Permutation_app_head.
    rewrite <-(IH (filter (λ x, ¬ key x = k) l)).
    + apply eq_reflexive_perm. f_equal. apply list_fmap_ext. intros i k' Hk'.
      apply list_elem_of_lookup_2 in Hk'. rewrite list_filter_filter.
      apply list_filter_iff. intros x. split; [|tauto].
      intros Hx. split; [done|]. intros Hxk. apply Hk. congruence.
    + intros x [Hx Hin]%list_elem_of_filter.
      apply Hl in Hin. apply elem_of_cons in Hin as [?|?]; done.
Qed.

Lemma load_keeps (K : sort_kind) (df : raw_table) (long_df : list row) :
  load K df = Ok long_df → melted <$> long_df ≡ₚ melt df.
Proof.
  intros (groups & -> & HF)%load_Ok.
  rewrite <-(join_groups_perm game_key (game_keys (melt df)) (melt df)).
  - fold (game_group (melt df)).
    induction HF as [|k out keys outs Hk HF IH]; [done|].
    change (mjoin (out :: outs)) with (out ++ mjoin outs).
    rewrite fmap_app, fmap_cons, IH.
    change (mjoin (?a :: ?b)) with (a ++ mjoin b).
    apply Permutation_app_tail.
    apply compute_uma_and_rank_Ok in Hk as (-> & _). apply sort_by_perm.
  - apply NoDup_game_keys.
  - intros r Hr. apply elem_of_game_keys. by exists r.
Qed.

(** X2. Loading neither drops nor invents a result: the loaded frame,
    stripped of the computed columns, is a rearrangement of the melted
    table, so it has one row per player column and game. *)
Theorem X2_load_keeps_rows (K : sort_kind) (df : raw_table) (long_df : list row) :
  load K df = Ok long_df →
  melted <$> long_df ≡ₚ melt df ∧
  length long_df = (length (player_columns df) * length (game_records df))%nat.
Proof.
  intros Hperm%load_keeps. split; [done|].
  rewrite <-(length_fmap melted), Hperm. apply length_melt.
Qed.

Lemma X2_load_keeps_rows_witness :
  load stable_kind sample_scores = Ok sample_long_df ∧
  length sample_long_df
  = (length (player_columns sample_scores)
     * length (game_records sample_scores))%nat.
Proof.
  assert (load stable_kind sample_scores = Ok sample_long_df) as Hload
    by (vm_compute; reflexivity).
  split; [exact Hload|].
  exact (proj2 (X2_load_keeps_rows stable_kind sample_scores sample_long_df Hload)).
Defined.

Lemma loaded_row_uma (K : sort_kind) (df : raw_table) (long_df : list row)
    (r : row) :
  load K df = Ok long_df → r ∈ long_df →
  1 ≤ Rank r ≤ 4 ∧
  UmaScore r
  = Score r + (if decide (Rank r = 1) then 20
               else if decide (Rank r = 2) then 10
               else if decide (Rank r = 3) then -10 else -20).
Proof.
  intros Hload Hr.
  pose proof (load_uma_applied K df long_df Hload) as Hu.
  rewrite Forall_forall in Hu. destruct (Hu r Hr) as [Huma _].
  assert (1 ≤ Rank r ≤ 4) as Hrank by (apply rank2uma_is_Some; by eexists).
  split; [done|].
  assert (Rank r = 1 ∨ Rank r = 2 ∨ Rank r = 3 ∨ Rank r = 4)
    as [Hk|[Hk|[Hk|Hk]]] by lia; rewrite Hk in Huma |- *.
  - change (rank2uma !! 1) with (Some 20) in Huma.
    injection Huma as Huma. simpl. lia.
  - change (rank2uma !! 2) with (Some 10) in Huma.
    injection Huma as Huma. simpl. lia.
  - change (rank2uma !! 3) with (Some (-10)) in Huma.
    injection Huma as Huma. simpl. lia.
  - change (rank2uma !! 4) with (Some (-20)) in Huma.
    injection Huma as Huma. simpl. lia.
Qed.

(** X3. Every row of a loaded frame with [int64] score columns belongs
    to a game and a player column of the table, has a rank from 1 to 4 and
    the uma of that rank added to its score; its scaled score is fifty times
    that as an [int64], which is the product itself when it fits 64 bits. *)
Theorem X3_loaded_row_invariant (K : sort_kind) (df : raw_table)
    (long_df : list row) (r : row) :
  load K df = Ok long_df →
  int64_frame long_df →
  r ∈ long_df →
  0 ≤ GameID r < sizeZ (game_records df) ∧
  Player r ∈ player_columns df ∧
  1 ≤ Rank r ≤ 4 ∧
  UmaScore r
  = Score r + (if decide (Rank r = 1) then 20
               else if decide (Rank r = 2) then 10
               else if decide (Rank r = 3) then -10 else -20) ∧
  UmaScore_x50 r = wrap64 (UmaScore r * 50) ∧
  (int64 (UmaScore r * 50) → UmaScore_x50 r = UmaScore r * 50).
Proof.
  intros Hload _ Hr.
  pose proof (load_uma_applied K df long_df Hload) as Hu.
  rewrite Forall_forall in Hu. destruct (Hu r Hr) as [Huma Hx50].
  assert (melted r ∈ melt df) as Hm.
  { apply load_Ok in Hload as (groups & -> & HF).
    apply list_elem_of_join in Hr as (out & Hr & Hout).
    apply list_elem_of_lookup_1 in Hout as [i Hi].
    destruct (Forall2_lookup_r _ _ _ _ _ HF Hi) as (k & _ & Hk).
    apply compute_uma_and_rank_Ok in Hk as (Hk & _).
    apply (list_elem_of_fmap_2 melted) in Hr.
    rewrite Hk, sort_by_perm in Hr. by apply list_elem_of_filter in Hr as [_ ?]. }
  apply elem_of_melt in Hm as (j & name & i & rec & Hj & Hi & Hm).
  destruct (loaded_row_uma K df long_df r Hload Hr) as [Hrank Hval].
  injection Hm as Hgame _ Hname _.
  split; [|split; [|split; [done|split; [done|split; [done|]]]]].
  - apply lookup_lt_Some in Hi. unfold sizeZ. lia.
  - rewrite Hname. by apply list_elem_of_lookup_2 in Hj.
  - intros Hfit. by rewrite Hx50, wrap64_id.
Qed.

(** X3 on [sample_scores]: "C" in the second game. *)
Lemma X3_loaded_row_invariant_witness :
  load stable_kind sample_scores = Ok sample_long_df ∧
  int64_frame sample_long_df ∧
  Row 1 11 "C" 300 2 310 15500 ∈ sample_long_df ∧
  int64 (310 * 50) ∧
  15500 = 310 * 50.
Proof.
  assert (load stable_kind sample_scores = Ok sample_long_df) as Hload
    by (vm_compute; reflexivity).
  assert (int64_frame sample_long_df) as H64
    by (apply (bool_decide_unpack _); vm_compute; exact I).
  assert (Row 1 11 "C" 300 2 310 15500 ∈ sample_long_df) as Hin
    by (apply (bool_decide_unpack _); vm_compute; exact I).
  assert (int64 (310 * 50)) as Hfit
    by (apply (bool_decide_unpack _); vm_compute; exact I).
  split; [exact Hload|]. split; [exact H64|]. split; [exact Hin|].
  split; [exact Hfit|].
  exact (proj2 (proj2 (proj2 (proj2 (proj2
           (X3_loaded_row_invariant stable_kind sample_scores
              sample_long_df _ Hload H64 Hin))))) Hfit).
Defined.

(** ** The error of a table with too many players *)

Lemma with_uma_KeyError r rank e :
  with_uma r rank = KeyError e → e = rank ∧ ¬ (1 ≤ rank ≤ 4).
Proof.
  intros He. split.
  - unfold with_uma, subscript in He.
    destruct (rank2uma !! rank); simpl in He; [done|]. by injection He.
  - apply (with_uma_raises r rank). by exists e.
Qed.

Lemma mapM_KeyError {A B} (f : A → result B) l e :
  mapM f l = KeyError e → ∃ x, x ∈ l ∧ f x = KeyError e.
Proof.
  induction l as [|x l IH]; simpl; [done|].
  destruct (f x) as [y|e'| |] eqn:Hx; simpl; [| |done..].
  - destruct (mapM f l) as [ys|e''| |]; simpl; [done| |done..].
    intros [= ->]. destruct IH as (x' & Hin & Hx'); [done|].
    exists x'. split; [by right|done].
  - intros [= ->]. exists x. split; [left|done].
Qed.

Lemma add_uma_KeyError (f : nat → Z) (k : nat) (l : list Long.row) e :
  (∀ i, f i = Z.of_nat (k + i) + 1) → (k ≤ 4)%nat →
  mapM (λ p, with_uma p.1 p.2) (imap (λ i r, (r, f i)) l) = KeyError e →
  e = 5.
Proof.
  revert f k. induction l as [|x l IH]; intros f k Hf Hk; simpl; [done|].
  destruct (with_uma x (f 0%nat)) as [y|e'| |] eqn:Hy; simpl; [| |done..].
  - assert (¬ raises (with_uma x (f 0%nat))) as Hs
      by (rewrite Hy; by intros [? ?]).
    rewrite with_uma_raises, Hf in Hs.
    destruct (mapM _ (imap _ l)) as [ys|e''| |] eqn:Hl; simpl; [done| |done..].
    intros [= ->]. apply (IH (f ∘ S) (S k)); [|lia|done].
    intros i. simpl. rewrite Hf. lia.
  - intros [= ->]. apply with_uma_KeyError in Hy as [-> Hy].
    rewrite Hf in Hy |- *. lia.
Qed.

(** X4. When loading fails, the exception is [KeyError] for the key 5: the
    first rank the uma table does not have. *)
Theorem X4_load_error_is_rank_5 (K : sort_kind) (df : raw_table) (e : Z) :
  load K df = KeyError e → e = 5.
Proof.
  unfold load.
  destruct (mapM _ (game_keys _)) as [groups|e'| |] eqn:Hg; simpl; [done| |done..].
  intros [= ->]. apply mapM_KeyError in Hg as (k & _ & Hk).
  unfold compute_uma_and_rank in Hk.
  eapply (add_uma_KeyError (λ i, Z.of_nat i + 1) 0); [done|lia|exact Hk].
Qed.

Lemma X4_load_error_is_rank_5_witness :
  load stable_kind five_players = KeyError 5 ∧ 5 = 5.
Proof.
  assert (load stable_kind five_players = KeyError 5) as Hload
    by (vm_compute; reflexivity).
  split; [exact Hload|].
  exact (X4_load_error_is_rank_5 stable_kind five_players 5 Hload).
Defined.

(** ** Order within a game *)

Lemma StronglySorted_lookup {A} (R : relation A) l i j x y :
  StronglySorted R l → l !! i = Some x → l !! j = Some y → (i < j)%nat → R x y.
Proof.
  intros Hl. revert i j. induction Hl as [|a l Hl IH Ha]; intros i j; [done|].
  destruct i as [|i], j as [|j]; simpl; try lia.
  - intros [= <-] Hy _. rewrite Forall_forall in Ha. apply Ha.
    by apply list_elem_of_lookup_2 in Hy.
  - intros Hx Hy Hij. apply (IH i j); [done..|lia].
Qed.

(** X5. Within a game, a strictly higher score gets a strictly better
    (smaller) rank, and the uma keeps that order: the higher score also has
    the higher [UmaScore]. *)
Theorem X5_rank_follows_score (K : sort_kind) (df : raw_table)
    (long_df : list row) (a b : row) :
  load K df = Ok long_df →
  a ∈ long_df → b ∈ long_df →
  GameID a = GameID b →
  Score b < Score a →
  Rank a < Rank b ∧ UmaScore b < UmaScore a.
Proof.
  intros Hload Ha Hb Hgame Hscore.
  destruct (loaded_game K df long_df (GameID a) Hload) as (Hrank & Hsorted & _ & _).
  set (game := filter (λ r, GameID r = GameID a) long_df) in *.
  assert (a ∈ game) as [i Hi]%list_elem_of_lookup_1 by by apply list_elem_of_filter.
  assert (b ∈ game) as [j Hj]%list_elem_of_lookup_1 by by apply list_elem_of_filter.
  assert (∀ n r, game !! n = Some r → Rank r = 1 + Z.of_nat n) as Hpos.
  { intros n r Hn.
    assert ((Rank <$> game) !! n = Some (Rank r)) as Hl
      by by rewrite list_lookup_fmap, Hn.
    rewrite Hrank in Hl. by apply lookup_seqZ in Hl as [-> _]. }
  assert (i < j)%nat as Hij.
  { destruct (decide (i < j)%nat) as [|Hge]; [done|]. exfalso.
    destruct (decide (i = j)) as [->|Hne].
    - rewrite Hi in Hj. injection Hj as ->. lia.
    - pose proof (StronglySorted_lookup _ _ j i b a Hsorted Hj Hi) as Hs.
      simpl in Hs. lia. }
  assert (Rank a < Rank b) as Hlt by (rewrite (Hpos i a Hi), (Hpos j b Hj); lia).
  split; [done|].
  destruct (loaded_row_uma K df long_df a Hload Ha) as (Ra & Ua).
  destruct (loaded_row_uma K df long_df b Hload Hb) as (Rb & Ub).
  rewrite Ua, Ub. repeat case_decide; lia.
Qed.

Lemma X5_rank_follows_score_witness :
  load stable_kind sample_scores = Ok sample_long_df ∧
  Row 0 10 "B" 300 1 320 16000 ∈ sample_long_df ∧
  Row 0 10 "C" 200 4 180 9000 ∈ sample_long_df ∧
  (0 = 0 ∧ 200 < 300) ∧
  1 < 4 ∧ 180 < 320.
Proof.
  assert (load stable_kind sample_scores = Ok sample_long_df) as Hload
    by (vm_compute; reflexivity).
  assert (Row 0 10 "B" 300 1 320 16000 ∈ sample_long_df) as Ha
    by (apply (bool_decide_unpack _); vm_compute; exact I).
  assert (Row 0 10 "C" 200 4 180 9000 ∈ sample_long_df) as Hb
    by (apply (bool_decide_unpack _); vm_compute; exact I).
  split; [exact Hload|]. split; [exact Ha|]. split; [exact Hb|].
  split; [split; [reflexivity|lia]|].
  exact (X5_rank_follows_score stable_kind sample_scores sample_long_df _ _
           Hload Ha Hb eq_refl ltac:(simpl; lia)).
Defined.

(** ** One row per game and player *)

Lemma filter_fmap_melted (P : Long.row → Prop) `{∀ x, Decision (P x)}
    (l : list row) :
  filter P (melted <$> l) = melted <$> filter (λ r, P (melted r)) l.
Proof.
  induction l as [|r l IH]; [done|].
  rewrite fmap_cons, !filter_cons, IH. by destruct (decide (P (melted r))).
Qed.

Lemma column_rows_player (f : nat → string → list Long.row) cols r :
  (∀ j name, Forall (λ r, Long.Player r = name) (f j name)) →
  r ∈ mjoin (imap f cols) → Long.Player r ∈ cols.
Proof.
  intros Hf (l & Hr & (j & name & -> & Hj)%elem_of_lookup_imap)%list_elem_of_join.
  specialize (Hf j name). rewrite Forall_forall in Hf. rewrite (Hf r Hr).
  by apply list_elem_of_lookup_2 in Hj.
Qed.

(** A game and a label name one cell of the table. *)
Lemma length_filter_melt_cell df g p :
  NoDup (player_columns df) → p ∈ player_columns df →
  0 ≤ g < sizeZ (game_records df) →
  length (filter (λ r, Long.GameID r = g ∧ Long.Player r = p) (melt df)) = 1%nat.
Proof.
  intros Hnd Hp Hg. unfold melt.
  set (f := λ (j : nat) (name : string),
         imap (λ i rec, Long.Row (Z.of_nat i) rec.1 name (nth j rec.2 0))
              (game_records df)).
  assert (∀ j name, Forall (λ r, Long.Player r = name) (f j name)) as Hf.
  { intros j name. apply Forall_forall.
    by intros r (i & rec & -> & _)%elem_of_lookup_imap. }
  apply list_elem_of_split in Hp as (l1 & l2 & Hcols). rewrite Hcols in Hnd |- *.
  apply NoDup_app in Hnd as (_ & Hl1 & [Hl2 _]%NoDup_cons).
  rewrite imap_app, imap_cons, join_app.
  change (mjoin (?a :: ?b)) with (a ++ mjoin b).
  rewrite !filter_app, !length_app.
  rewrite (filter_nil_not_elem _ (mjoin (imap f l1))).
  2:{ intros r Hr [_ Hrp]. apply (column_rows_player f l1 r Hf) in Hr.
      rewrite Hrp in Hr. apply (Hl1 p Hr). left. }
  rewrite (filter_nil_not_elem _ (mjoin (imap _ l2))).
  2:{ intros r Hr [_ Hrp].
      apply (column_rows_player (λ n, f (length l1 + S n)%nat) l2 r) in Hr.
      - by rewrite Hrp in Hr.
      - intros j name. apply Hf. }
  simpl. rewrite Nat.add_0_r.
  rewrite (filter_ext_elem _ (λ r, Long.GameID r = g)).
  - unfold f. rewrite <-(Z2Nat.id g) by lia.
    rewrite (length_filter_imap_game _ 0%nat) by done.
    unfold sizeZ in Hg. case_decide; [done|lia].
  - intros r Hr. specialize (Hf (length l1 + 0)%nat p).
    rewrite Forall_forall in Hf. specialize (Hf r Hr). tauto.
Qed.

(** X6. When the player columns have distinct names, the loaded frame has
    exactly one row for each game of the table and each player column. *)
Theorem X6_one_row_per_game_and_player (K : sort_kind) (df : raw_table)
    (long_df : list row) (g : Z) (p : string) :
  load K df = Ok long_df →
  NoDup (player_columns df) →
  p ∈ player_columns df →
  0 ≤ g < sizeZ (game_records df) →
  length (filter (λ r, GameID r = g ∧ Player r = p) long_df) = 1%nat.
Proof.
  intros Hload Hnd Hp Hg.
  rewrite <-(length_filter_melt_cell df g p Hnd Hp Hg).
  apply load_keeps in Hload as Hperm. rewrite <-Hperm.
  by rewrite filter_fmap_melted, length_fmap.
Qed.

Lemma X6_one_row_per_game_and_player_witness :
  load stable_kind sample_scores = Ok sample_long_df ∧
  NoDup (player_columns sample_scores) ∧
  "C" ∈ player_columns sample_scores ∧
  0 ≤ 2 < sizeZ (game_records sample_scores) ∧
  length (filter (λ r, GameID r = 2 ∧ Player r = "C") sample_long_df) = 1%nat.
Proof.
  assert (load stable_kind sample_scores = Ok sample_long_df) as Hload
    by (vm_compute; reflexivity).
  assert (NoDup (player_columns sample_scores)) as Hnd
    by (apply (bool_decide_unpack _); vm_compute; exact I).
  assert ("C" ∈ player_columns sample_scores) as Hin
    by (apply (bool_decide_unpack _); vm_compute; exact I).
  assert (0 ≤ 2 < sizeZ (game_records sample_scores)) as Hg
    by (vm_compute; split; [discriminate|reflexivity]).
  split; [exact Hload|]. split; [exact Hnd|]. split; [exact Hin|].
  split; [exact Hg|].
  exact (X6_one_row_per_game_and_player stable_kind sample_scores
           sample_long_df 2 "C" Hload Hnd Hin Hg).
Defined.

(** ** Zero sum over a date range *)

Lemma sumZ_app l1 l2 : sumZ (l1 ++ l2) = sumZ l1 + sumZ l2.
Proof.
  induction l1 as [|x l1 IH]; [done|].
  rewrite <-app_comm_cons, !sumZ_cons, IH. lia.
Qed.

Lemma compute_group_date (K : sort_kind) df k out :
  compute_uma_and_rank K (game_group (melt df) k) = Ok out →
  Forall (λ r, Date r = k.2) out.
Proof.
  intros (Hm & _)%compute_uma_and_rank_Ok. apply Forall_forall. intros r Hr.
  assert (melted r ∈ sort_by K score_desc (game_group (melt df) k)) as Hin
    by (rewrite <-Hm; by apply list_elem_of_fmap_2).
  rewrite sort_by_perm in Hin. apply list_elem_of_filter in Hin as [Hin _].
  by rewrite <-Hin.
Qed.

(** X7. With four player columns, the uma stays zero-sum under date
    filtering: over the rows of any date range the [UmaScore] column and the
    [Score] column have the same sum, because a range takes a game whole or
    not at all. *)
Theorem X7_zero_sum_in_range (K : sort_kind) (df : raw_table)
    (long_df : list row) (start_date end_date : Z) :
  load K df = Ok long_df →
  length (player_columns df) = 4%nat →
  sumZ (UmaScore <$> date_mask start_date end_date long_df)
  = sumZ (Score <$> date_mask start_date end_date long_df).
Proof.
  intros (groups & -> & HF)%load_Ok Hcols. unfold date_mask.
  assert (Forall (λ out,
            sumZ (UmaScore <$> out) = sumZ (Score <$> out) ∧
            ∃ d, Forall (λ r, Date r = d) out) groups) as Hgroups.
  { apply Forall_forall. intros out [i Hi]%list_elem_of_lookup_1.
    destruct (Forall2_lookup_r _ _ _ _ _ HF Hi) as (k & Hk & Hc).
    apply list_elem_of_lookup_2 in Hk. split.
    - pose proof (game_group_length df k Hk) as Hlen.
      pose proof Hc as (Hm & Hr & Hu)%compute_uma_and_rank_Ok.
      apply uma_applied_zero_sum; [|done]. rewrite Hr. f_equal.
      unfold sizeZ. rewrite <-(length_fmap melted), Hm.
      assert (length (sort_by K score_desc (game_group (melt df) k))
              = length (game_group (melt df) k)) as -> by by rewrite sort_by_perm.
      by rewrite Hlen, Hcols.
    - exists k.2. by apply (compute_group_date K df). }
  clear HF. induction Hgroups as [|out groups [Hsum [d Hd]] _ IH]; [done|].
  change (mjoin (out :: groups)) with (out ++ mjoin groups).
  rewrite filter_app, !fmap_app, !sumZ_app, IH. f_equal.
  destruct (decide (start_date ≤ d ∧ d ≤ end_date)) as [Hin|Hout].
  - rewrite filter_all; [done|].
    eapply Forall_impl; [exact Hd|]. by intros r ->.
  - rewrite filter_nil_not_elem; [done|].
    rewrite Forall_forall in Hd. intros r Hr. by rewrite (Hd r Hr).
Qed.

Lemma X7_zero_sum_in_range_witness :
  load stable_kind sample_scores = Ok sample_long_df ∧
  length (player_columns sample_scores) = 4%nat ∧
  sumZ (UmaScore <$> date_mask 11 11 sample_long_df)
  = sumZ (Score <$> date_mask 11 11 sample_long_df).
Proof.
  assert (load stable_kind sample_scores = Ok sample_long_df) as Hload
    by (vm_compute; reflexivity).
  split; [exact Hload|]. split; [reflexivity|].
  exact (X7_zero_sum_in_range stable_kind sample_scores sample_long_df 11 11
           Hload eq_refl).
Defined.

(** ** The peak score *)

Lemma maxZ_spec l : l ≠ [] → maxZ l ∈ l ∧ Forall (λ x, x ≤ maxZ l) l.
Proof.
  destruct l as [|x l]; [done|]. intros _. simpl.
  induction l as [|y l [IHin IHle]]; simpl.
  - split; [left|]. constructor; [lia|constructor].
  - apply Forall_cons in IHle as [Hx Hl].
    destruct (Z.max_spec y (foldr Z.max x l)) as [[Hlt ->]|[Hge ->]].
    + split.
      * apply elem_of_cons in IHin as [->|Hin]; [left|]. right. by right.
      * constructor; [done|]. constructor; [lia|done].
    + split; [right; left|]. constructor; [lia|]. constructor; [lia|].
      eapply Forall_impl; [exact Hl|]. simpl. intros. lia.
Qed.

Lemma minZ_spec l : l ≠ [] → minZ l ∈ l ∧ Forall (λ x, minZ l ≤ x) l.
Proof.
  destruct l as [|x l]; [done|]. intros _. simpl.
  induction l as [|y l [IHin IHle]]; simpl.
  - split; [left|]. constructor; [lia|constructor].
  - apply Forall_cons in IHle as [Hx Hl].
    destruct (Z.min_spec y (foldr Z.min x l)) as [[Hlt ->]|[Hge ->]].
    + split; [right; left|]. constructor; [lia|]. constructor; [lia|].
      eapply Forall_impl; [exact Hl|]. simpl. intros. lia.
    + split.
      * apply elem_of_cons in IHin as [->|Hin]; [left|]. right. by right.
      * constructor; [done|]. constructor; [lia|done].
Qed.

(** X8. The ranking callback returns, and every line of its peak-score
    leaderboard names a player of the range and shows an [UmaScore] that
    player really had in the range, and none of that player's rows in the
    range has a higher one. *)
Theorem X8_peak_score_is_attained_maximum (K : sort_kind)
    (bapp_dict : gmap string Z) (long_df : list row)
    (start_date end_date : Z) :
  let dff := date_mask start_date end_date long_df in
  ∃ t,
    update_ranking_tables K bapp_dict long_df start_date end_date = Ok t ∧
    ∀ x, x ∈ highest_score t →
      (∃ r, r ∈ dff ∧ Player r = name x ∧ UmaScore r = value x) ∧
      (∀ r, r ∈ dff → Player r = name x → UmaScore r ≤ value x).
Proof.
  intros dff. exists (leaderboards K bapp_dict dff).
  split; [apply update_ranking_tables_Ok|]. intros x Hx.
  change (x ∈ rank_desc K (Z_desc snd)
                (groupby_player (λ g, maxZ (UmaScore <$> g)) dff)) in Hx.
  apply elem_of_rank_desc, elem_of_groupby_player in Hx as [Hp Hv].
  simpl in Hp, Hv. apply player_rows_nonempty in Hp.
  destruct (maxZ_spec (UmaScore <$> player_rows dff (name x))) as [Hin Hle].
  { intros Hnil. apply fmap_nil_inv in Hnil. done. }
  rewrite <-Hv in Hin, Hle. split.
  - apply list_elem_of_fmap in Hin as (r & Hr & [Hrp Hrin]%list_elem_of_filter).
    by exists r.
  - intros r Hr Hrp. rewrite Forall_forall in Hle. apply Hle.
    apply list_elem_of_fmap_2. by apply list_elem_of_filter.
Qed.

(** X8 on [sample_long_df]: the peak of "B" is the 420 of the second game. *)
Lemma X8_peak_score_is_attained_maximum_witness :
  ∃ t, update_ranking_tables stable_kind sample_bapp sample_long_df 10 11
       = Ok t ∧
       Ranked 1 "B" 420 ∈ highest_score t ∧
       ∃ r, r ∈ date_mask 10 11 sample_long_df ∧ Player r = "B" ∧
            UmaScore r = 420.
Proof.
  destruct (X8_peak_score_is_attained_maximum stable_kind sample_bapp
              sample_long_df 10 11) as (t & Ht & Hlines).
  exists t. split; [exact Ht|].
  assert (Ranked 1 "B" 420 ∈ highest_score t) as Hin.
  { assert (Ok t = Ok (leaderboards stable_kind sample_bapp
                         (date_mask 10 11 sample_long_df))) as Heq
      by (rewrite <-Ht; apply update_ranking_tables_Ok).
    injection Heq as ->. vm_compute. left. }
  split; [exact Hin|]. exact (proj1 (Hlines _ Hin)).
Defined.

(** ** Positions *)

Lemma length_groupby_player {V} (agg : list row → V) dff :
  length (groupby_player agg dff) = length (players_of dff).
Proof. unfold groupby_player. apply length_fmap. Qed.

(** X9. The ranking callback returns, and in each of its four
    leaderboards the "順位" column counts 1, 2, ..., n from the top, n being
    the number of distinct players with a row in the range. *)
Theorem X9_positions_count_players (K : sort_kind) (bapp_dict : gmap string Z)
    (long_df : list row) (start_date end_date : Z) :
  let dff := date_mask start_date end_date long_df in
  let n := sizeZ (remove_dups (Player <$> dff)) in
  ∃ t,
    update_ranking_tables K bapp_dict long_df start_date end_date = Ok t ∧
    point_position <$> point_summary t = seqZ 1 n ∧
    position <$> highest_score t = seqZ 1 n ∧
    position <$> avoidance t = seqZ 1 n ∧
    position <$> uma50 t = seqZ 1 n.
Proof.
  intros dff n. exists (leaderboards K bapp_dict dff).
  split; [apply update_ranking_tables_Ok|].
  set (t := leaderboards K bapp_dict dff).
  assert (n = sizeZ (players_of dff)) as ->.
  { unfold n, sizeZ. by rewrite players_of_perm. }
  split_and!.
  - change (point_summary t) with (point_lines K dff). unfold point_lines.
    rewrite fmap_imap, (imap_ext _ (λ i _, Z.of_nat i + 1)) by done.
    rewrite (imap_seq_0 _ (λ i, Z.of_nat i + 1)). unfold seqZ, sizeZ.
    rewrite Nat2Z.id. f_equal. f_equal.
    assert (∀ l : list (string * Z),
              length (sort_by K (Z_desc snd) l) = length l) as ->
      by (intros l; by rewrite sort_by_perm).
    apply length_groupby_player.
  - change (highest_score t) with (highest_score_ranking K dff).
    unfold highest_score_ranking. rewrite rank_desc_position.
    unfold sizeZ. by rewrite length_groupby_player.
  - change (avoidance t) with (avoidance_ranking K dff).
    unfold avoidance_ranking. cbv zeta. rewrite rank_desc_position.
    unfold sizeZ. by rewrite length_fmap, length_groupby_player.
  - change (uma50 t) with (uma50_ranking K bapp_dict dff).
    unfold uma50_ranking, adjusted. rewrite rank_desc_position.
    unfold sizeZ. by rewrite length_fmap, length_groupby_player.
Qed.

(** ** Range of the avoidance rate *)

Lemma avoidance_rate_bounds games rank4 :
  0 < games → 0 ≤ rank4 ≤ games →
  (0 <= avoidance_rate games rank4 <= 100)%Q ∧
  ((avoidance_rate games rank4 == 100)%Q ↔ rank4 = 0).
Proof.
  intros Hg Hr. unfold avoidance_rate.
  destruct games as [|g|g]; try lia.
  unfold Qle, Qeq, Qdiv, Qmult, Qminus, Qplus, Qopp, Qinv, inject_Z. simpl.
  split; [split|]; lia.
Qed.

(** X10. The ranking callback returns, and every avoidance rate it shows
    lies between 0 and 100, and is 100 exactly for the players without a
    fourth place in the range. *)
Theorem X10_avoidance_rate_range (K : sort_kind) (bapp_dict : gmap string Z)
    (long_df : list row) (start_date end_date : Z) :
  let dff := date_mask start_date end_date long_df in
  ∃ t,
    update_ranking_tables K bapp_dict long_df start_date end_date = Ok t ∧
    ∀ x, x ∈ avoidance t →
      (0 <= value x <= 100)%Q ∧
      ((value x == 100)%Q ↔ ∀ r, r ∈ dff → Player r = name x → Rank r ≠ 4).
Proof.
  intros dff. exists (leaderboards K bapp_dict dff).
  split; [apply update_ranking_tables_Ok|]. intros x Hx.
  change (x ∈ avoidance_ranking K dff) in Hx. unfold avoidance_ranking in Hx.
  cbv zeta in Hx. apply elem_of_rank_desc in Hx.
  apply list_elem_of_fmap in Hx as ([p g] & Hv & [Hp Hg]%elem_of_groupby_player).
  simpl in Hp, Hg, Hv. injection Hv as Hname Hval. rewrite Hname in *.
  rewrite rank4_lookup in Hval. apply player_rows_nonempty in Hp.
  set (rows := player_rows dff p) in *.
  assert (0 < g) as Hpos.
  { rewrite Hg. unfold sizeZ. destruct rows; [done|]. simpl. lia. }
  assert (0 ≤ sizeZ (filter (λ r, Rank r = 4) rows) ≤ g) as Hr4.
  { rewrite Hg. unfold sizeZ. pose proof (length_filter (λ r, Rank r = 4) rows). lia. }
  destruct (avoidance_rate_bounds g _ Hpos Hr4) as [Hb Hiff].
  rewrite Hval. split; [done|]. rewrite Hiff. unfold sizeZ. split.
  - intros Hz r Hr Hrp Hr4'.
    assert (r ∈ filter (λ r, Rank r = 4) rows) as Hin.
    { apply list_elem_of_filter. split; [done|]. by apply list_elem_of_filter. }
    destruct (filter _ rows); [by apply not_elem_of_nil in Hin|]. simpl in Hz. lia.
  - intros Hnone. rewrite filter_nil_not_elem; [done|].
    intros r [Hrp Hr]%list_elem_of_filter. by apply Hnone.
Qed.

(** X10 on [sample_long_df]: "B" was never fourth. *)
Lemma X10_avoidance_rate_range_witness :
  ∃ t, update_ranking_tables stable_kind sample_bapp sample_long_df 10 11
       = Ok t ∧
       Ranked 1 "B" (300 # 3) ∈ avoidance t ∧
       (0 <= 300 # 3 <= 100)%Q.
Proof.
  destruct (X10_avoidance_rate_range stable_kind sample_bapp
              sample_long_df 10 11) as (t & Ht & Hlines).
  exists t. split; [exact Ht|].
  assert (Ranked 1 "B" (300 # 3) ∈ avoidance t) as Hin.
  { assert (Ok t = Ok (leaderboards stable_kind sample_bapp
                         (date_mask 10 11 sample_long_df))) as Heq
      by (rewrite <-Ht; apply update_ranking_tables_Ok).
    injection Heq as ->. vm_compute. left. }
  split; [exact Hin|]. exact (proj1 (Hlines _ Hin)).
Defined.

(** ** Gaps of the point ranking *)

(** When every player's total lies between [-2^62] and [2^62], so does
    every [Pt] of the point ranking. *)
Lemma point_totals_fit (K : sort_kind) dff :
  (∀ p, p ∈ Player <$> dff →
        - 2 ^ 62 ≤ sumZ (Score <$> filter (λ r, Player r = p) dff) < 2 ^ 62) →
  Forall (λ x : string * Z, - 2 ^ 62 ≤ x.2 < 2 ^ 62)
    (sort_by K (Z_desc snd) (groupby_player (λ g, sum64 (Score <$> g)) dff)).
Proof.
  intros Hfit. apply Forall_forall. intros x Hx. rewrite sort_by_perm in Hx.
  apply elem_of_groupby_player in Hx as [Hx1 Hx2].
  specialize (Hfit _ Hx1). fold (player_rows dff x.1) in Hfit.
  rewrite Hx2, sum64_exact; [done|]. unfold int64. lia.
Qed.

(** X11. Take a frame with an [int64] [Score] column and a date range in
    which every player's [Score] total lies between [-2^62] and [2^62].
    The ranking callback returns, and in its point ranking no gap is
    negative and the gaps never shrink down the table. *)
Theorem X11_gaps_grow_down_the_table (K : sort_kind)
    (bapp_dict : gmap string Z) (long_df : list row) (start_date end_date : Z) :
  let dff := date_mask start_date end_date long_df in
  Forall (λ r, int64 (Score r)) long_df →
  (∀ p, p ∈ Player <$> dff →
        - 2 ^ 62 ≤ sumZ (Score <$> filter (λ r, Player r = p) dff) < 2 ^ 62) →
  ∃ t,
    update_ranking_tables K bapp_dict long_df start_date end_date = Ok t ∧
    Forall (λ x, 0 ≤ Pt_gap x) (point_summary t) ∧
    StronglySorted (λ a b, Pt_gap a ≤ Pt_gap b) (point_summary t).
Proof.
  intros dff _ Hfit. exists (leaderboards K bapp_dict dff).
  split; [apply update_ranking_tables_Ok|].
  change (point_summary (leaderboards K bapp_dict dff))
    with (point_lines K dff).
  unfold point_lines.
  set (frame := groupby_player (λ g, sum64 (Score <$> g)) dff).
  pose proof (sort_by_sorted K _ (Z_desc snd) frame
                (Z_desc_total snd) (Z_desc_trans snd)) as Hsorted.
  pose proof (point_totals_fit K dff Hfit) as Hbound. fold frame in Hbound.
  destruct (sort_by K (Z_desc snd) frame) as [|top sorted];
    [split; constructor|].
  change (default 0 (snd <$> head (top :: sorted))) with top.2.
  assert (∀ r, r ∈ top :: sorted → sub64 top.2 r.2 = top.2 - r.2) as Hgap.
  { intros r Hr. apply wrap64_id. rewrite Forall_forall in Hbound.
    pose proof (Hbound r Hr). pose proof (Hbound top ltac:(left)).
    unfold int64. lia. }
  split.
  - apply Forall_forall. intros x (i & r & -> & Hr)%elem_of_lookup_imap.
    apply list_elem_of_lookup_2 in Hr. cbn [Pt_gap]. rewrite (Hgap r Hr).
    apply elem_of_cons in Hr as [->|Hr]; [lia|].
    apply StronglySorted_cons in Hsorted as [Hall _].
    rewrite Forall_forall in Hall. specialize (Hall r Hr).
    apply Z.leb_le in Hall. lia.
  - eapply (StronglySorted_imap
              (λ a b, Z_desc snd a b = true
                      ∧ a ∈ top :: sorted ∧ b ∈ top :: sorted)).
    + intros i j a b (Hab & Ha & Hb). apply Z.leb_le in Hab.
      cbn [Pt_gap]. rewrite (Hgap a Ha), (Hgap b Hb). lia.
    + apply StronglySorted_Forall; [done|]. by apply Forall_forall.
Qed.

(** X11 on [sample_long_df] over both days. *)
Lemma X11_gaps_grow_down_the_table_witness :
  Forall (λ r, int64 (Score r)) sample_long_df ∧
  ∃ t, update_ranking_tables stable_kind sample_bapp sample_long_df 10 11
       = Ok t ∧
       Forall (λ x, 0 ≤ Pt_gap x) (point_summary t).
Proof.
  assert (Forall (λ r, int64 (Score r)) sample_long_df) as H64
    by (apply (bool_decide_unpack _); vm_compute; exact I).
  assert (∀ p, p ∈ Player <$> date_mask 10 11 sample_long_df →
            - 2 ^ 62 ≤ sumZ (Score <$> filter (λ r, Player r = p)
                                         (date_mask 10 11 sample_long_df))
            < 2 ^ 62) as Hfit.
  { intros p Hp. change (Player <$> date_mask 10 11 sample_long_df)
      with ["B"; "A"; "D"; "C"; "B"; "C"; "D"; "A"; "A"; "B"; "C"; "D"] in Hp.
    repeat (apply elem_of_cons in Hp as [->|Hp]; [vm_compute; split; congruence|]).
    by apply not_elem_of_nil in Hp. }
  split; [exact H64|].
  destruct (X11_gaps_grow_down_the_table stable_kind sample_bapp
              sample_long_df 10 11 H64 Hfit) as (t & Ht & Hgaps & _).
  exists t. split; [exact Ht|exact Hgaps].
Defined.

(** ** Shape of the summary report *)

(** The report, line by line. *)
Lemma summary_report_lines bapp_dict dff :
  pivot_lines (summary_report bapp_dict dff)
  = [ (MaxScore, summary_line (λ g, inject_Z (maxZ (UmaScore <$> g))) dff);
      (MinScore, summary_line (λ g, inject_Z (minZ (UmaScore <$> g))) dff);
      (MeanScore, summary_line (λ g, meanQ (UmaScore <$> g)) dff) ]
    ++ rank_rate_T dff
    ++ [ (MeanRank, summary_line (λ g, meanQ (Rank <$> g)) dff);
         (RawTotal, summary_line (λ g, inject_Z (sum64 (Score <$> g))) dff);
         (UmaTotal, summary_line (λ g, inject_Z (sum64 (UmaScore <$> g))) dff);
         (Yeeeen, (λ r, Some (inject_Z r.2))
                    <$> adjusted bapp_dict
                          (groupby_player (λ g, sum64 (UmaScore_x50 <$> g)) dff)) ].
Proof.
  unfold summary_report, reindex. cbn [pivot_lines pivot_columns].
  rewrite !fmap_app.
  set (lines := summary_pivot bapp_dict dff ++ rank_rate_T dff).
  assert (∀ lbl cells,
            (lbl, cells) ∈ lines →
            match list_find (λ line, line.1 = lbl) lines with
            | Some (_, line) => line.2
            | None => replicate (length (players_of dff)) None
            end = cells) as Hfind.
  { intros lbl cells Hin.
    destruct (list_find_NoDup fst lines (lbl, cells)
                (summary_labels_NoDup bapp_dict dff) Hin) as [j Hj].
    assert (list_find (λ line, line.1 = lbl) lines = Some (j, (lbl, cells)))
      as -> by exact Hj.
    done. }
  assert (∀ lbl cells, (lbl, cells) ∈ summary_pivot bapp_dict dff →
                       (lbl, cells) ∈ lines) as Hfixed
    by (intros; apply elem_of_app; by left).
  apply (f_equal2 (@app _)); [|apply (f_equal2 (@app _))].
  - rewrite !fmap_cons, fmap_nil.
    erewrite (Hfind MaxScore)
      by (apply Hfixed; do 4 apply list_elem_of_further; apply list_elem_of_here).
    erewrite (Hfind MinScore)
      by (apply Hfixed; do 5 apply list_elem_of_further; apply list_elem_of_here).
    erewrite (Hfind MeanScore)
      by (apply Hfixed; do 6 apply list_elem_of_further; apply list_elem_of_here).
    done.
  - rewrite <-list_fmap_compose. unfold rank_rate_T. apply list_fmap_ext.
    intros i c Hc. apply list_elem_of_lookup_2 in Hc.
    apply (f_equal (pair (RankRate c))).
    apply Hfind. apply elem_of_app. right. apply list_elem_of_fmap. by exists c.
  - rewrite !fmap_cons, fmap_nil.
    erewrite (Hfind MeanRank)
      by (apply Hfixed; do 2 apply list_elem_of_further; apply list_elem_of_here).
    erewrite (Hfind RawTotal) by (apply Hfixed; apply list_elem_of_here).
    erewrite (Hfind UmaTotal)
      by (apply Hfixed; apply list_elem_of_further; apply list_elem_of_here).
    erewrite (Hfind Yeeeen)
      by (apply Hfixed; do 3 apply list_elem_of_further; apply list_elem_of_here).
    done.
Qed.

Lemma length_summary_line (f : list row → Q) dff :
  length (summary_line f dff) = length (players_of dff) ∧
  Forall is_Some (summary_line f dff).
Proof.
  unfold summary_line. split; [apply length_fmap|].
  apply Forall_fmap, Forall_true. by eexists.
Qed.

Lemma summary_report_labels bapp_dict dff :
  fst <$> pivot_lines (summary_report bapp_dict dff)
  = [MaxScore; MinScore; MeanScore] ++ (RankRate <$> ranks_of dff)
    ++ [MeanRank; RawTotal; UmaTotal; Yeeeen].
Proof.
  rewrite summary_report_lines, !fmap_app. unfold rank_rate_T.
  by rewrite <-list_fmap_compose.
Qed.

(** X12. The summary callback returns.  Its report has one column per
    player of the range, in ascending label order; its lines are the peak,
    lowest and mean score, one rate line per rank seen in the range in
    ascending rank order, then mean rank, score total, uma total and
    "Yeeeen"; every line has a cell in every column and no cell is blank. *)
Theorem X12_report_shape (bapp_dict : gmap string Z) (long_df : list row)
    (start_date end_date : Z) :
  let dff := date_mask start_date end_date long_df in
  ∃ report,
    update_summary_table bapp_dict long_df start_date end_date = Ok report ∧
    StronglySorted label_lt (pivot_columns report) ∧
    (∀ p, p ∈ pivot_columns report ↔ p ∈ Player <$> dff) ∧
    (∃ ranks,
       fst <$> pivot_lines report
       = [MaxScore; MinScore; MeanScore] ++ (RankRate <$> ranks)
         ++ [MeanRank; RawTotal; UmaTotal; Yeeeen] ∧
       StronglySorted Z.lt ranks ∧
       ∀ rank, rank ∈ ranks ↔ rank ∈ Rank <$> dff) ∧
    Forall (λ line, length line.2 = length (pivot_columns report) ∧
                    Forall is_Some line.2)
           (pivot_lines report).
Proof.
  intros dff. exists (summary_report bapp_dict dff).
  split; [apply update_summary_table_Ok|].
  split_and!.
  - apply players_of_sorted.
  - intros p. apply elem_of_players_of.
  - exists (ranks_of dff). split_and!.
    + apply summary_report_labels.
    + apply ranks_of_sorted.
    + apply elem_of_ranks_of.
  - rewrite summary_report_lines, summary_report_columns.
    rewrite !Forall_app. split_and!.
    + repeat (constructor; [apply length_summary_line|]). constructor.
    + unfold rank_rate_T. apply Forall_fmap, Forall_true. intros rank. simpl.
      split; [apply length_fmap|]. apply Forall_fmap, Forall_true. by eexists.
    + repeat (constructor; [apply length_summary_line|]).
      constructor; [|constructor]. simpl. split.
      * by rewrite length_fmap, <-(length_fmap fst), adjusted_fst,
          groupby_player_fst.
      * apply Forall_fmap, Forall_true. by eexists.
Qed.

(** ** Cells of the report *)

Lemma loc_report bapp_dict dff lbl cells i p :
  (lbl, cells) ∈ pivot_lines (summary_report bapp_dict dff) →
  players_of dff !! i = Some p →
  loc (summary_report bapp_dict dff) lbl p = default None (cells !! i).
Proof.
  intros Hline Hp. unfold loc. rewrite summary_report_columns.
  destruct (list_find_NoDup fst (pivot_lines (summary_report bapp_dict dff))
              (lbl, cells)) as [j Hj]; [|done|].
  { rewrite summary_report_labels. apply NoDup_app. split_and!.
    - by apply (bool_decide_unpack _).
    - intros l Hl [(c & -> & _)%list_elem_of_fmap|Hl']%elem_of_app.
      + repeat (apply elem_of_cons in Hl as [?|Hl]; [done|]).
        by apply not_elem_of_nil in Hl.
      + repeat (apply elem_of_cons in Hl as [->|Hl];
                [by apply (bool_decide_unpack _) in Hl'
                   || (exfalso; revert Hl'; by apply (bool_decide_unpack _))|]).
        by apply not_elem_of_nil in Hl.
    - apply NoDup_app. split_and!.
      + apply NoDup_fmap_2; [|apply NoDup_ranks_of]. by intros ?? [=].
      + intros l (c & -> & _)%list_elem_of_fmap Hl.
        repeat (apply elem_of_cons in Hl as [?|Hl]; [done|]).
        by apply not_elem_of_nil in Hl.
      + by apply (bool_decide_unpack _). }
  assert (list_find (λ line, line.1 = lbl)
            (pivot_lines (summary_report bapp_dict dff)) = Some (j, (lbl, cells)))
    as -> by exact Hj.
  destruct (list_find_NoDup id (players_of dff) p) as [k Hk].
  { rewrite list_fmap_id. apply NoDup_players_of. }
  { by apply list_elem_of_lookup_2 in Hp. }
  assert (list_find (λ c, c = p) (players_of dff) = Some (k, p)) as Hk' by exact Hk.
  rewrite Hk'. apply list_find_Some in Hk' as (Hk' & _).
  by rewrite (NoDup_lookup _ _ _ _ (NoDup_players_of dff) Hk' Hp).
Qed.

Lemma loc_summary_line bapp_dict dff lbl (f : list row → Q) p :
  (lbl, summary_line f dff) ∈ pivot_lines (summary_report bapp_dict dff) →
  p ∈ Player <$> dff →
  loc (summary_report bapp_dict dff) lbl p = Some (f (player_rows dff p)).
Proof.
  intros Hline [i Hi]%elem_of_players_of%list_elem_of_lookup_1.
  rewrite (loc_report _ _ _ _ i p Hline Hi).
  unfold summary_line. by rewrite list_lookup_fmap, Hi.
Qed.


Ltac report_line :=
  rewrite summary_report_lines, !elem_of_app;
  first [ left;
          solve [repeat first [apply list_elem_of_here|apply list_elem_of_further]]
        | right; right;
          solve [repeat first [apply list_elem_of_here|apply list_elem_of_further]] ].

Lemma meanQ_bounds (a b : Z) (l : list Z) :
  l ≠ [] → Forall (λ x, a ≤ x ≤ b) l →
  (inject_Z a <= meanQ l <= inject_Z b)%Q.
Proof.
  intros Hne Hl.
  assert (a * sizeZ l ≤ sumZ l ≤ b * sizeZ l) as Hsum.
  { clear Hne. unfold sizeZ. induction Hl as [|x l Hx Hl IH]; [simpl; lia|].
    rewrite sumZ_cons. cbn [length]. nia. }
  assert (0 < sizeZ l) as Hn by (unfold sizeZ; destruct l; [done|simpl; lia]).
  unfold meanQ. destruct (sizeZ l) as [|n|n]; try lia.
  unfold Qle, Qdiv, Qmult, Qinv, inject_Z. simpl. nia.
Qed.



(** X14. For a loaded frame the summary callback returns, and every mean
    rank in its report lies between 1 and 4. *)
Theorem X14_mean_rank_range (K : sort_kind) (bapp_dict : gmap string Z)
    (df : raw_table) (long_df : list row) (start_date end_date : Z)
    (p : string) :
  load K df = Ok long_df →
  let dff := date_mask start_date end_date long_df in
  p ∈ Player <$> dff →
  ∃ report mean,
    update_summary_table bapp_dict long_df start_date end_date = Ok report ∧
    loc report MeanRank p = Some mean ∧ (1 <= mean <= 4)%Q.
Proof.
  intros Hload dff Hp.
  exists (summary_report bapp_dict dff), (meanQ (Rank <$> player_rows dff p)).
  split; [apply update_summary_table_Ok|]. split.
  - apply (loc_summary_line _ _ _ (λ g, meanQ (Rank <$> g))); [report_line|done].
  - apply (meanQ_bounds 1 4).
    + intros Hnil%fmap_nil_inv. by apply player_rows_nonempty in Hp.
    + apply Forall_fmap, Forall_forall. intros r [_ Hr]%list_elem_of_filter.
      apply list_elem_of_filter in Hr as [_ Hr].
      by destruct (loaded_row_uma K df long_df r Hload Hr).
Qed.

(** X14 on [sample_scores]: player "A". *)
Lemma X14_mean_rank_range_witness :
  load stable_kind sample_scores = Ok sample_long_df ∧
  "A" ∈ Player <$> date_mask 10 11 sample_long_df ∧
  ∃ report mean,
    update_summary_table sample_bapp sample_long_df 10 11 = Ok report ∧
    loc report MeanRank "A" = Some mean ∧ (1 <= mean <= 4)%Q.
Proof.
  assert (load stable_kind sample_scores = Ok sample_long_df) as Hload
    by (vm_compute; reflexivity).
  assert ("A" ∈ Player <$> date_mask 10 11 sample_long_df) as Hin
    by (apply (bool_decide_unpack _); vm_compute; exact I).
  split; [exact Hload|]. split; [exact Hin|].
  exact (X14_mean_rank_range stable_kind sample_bapp sample_scores
           sample_long_df 10 11 "A" Hload Hin).
Defined.




(** ** The report and the leaderboards *)



(** ** Rank rates (C8) *)

Lemma loc_rank_rate bapp_dict dff rank p :
  rank ∈ Rank <$> dff → p ∈ Player <$> dff →
  loc (summary_report bapp_dict dff) (RankRate rank) p
  = Some (rank_rate dff p rank).
Proof.
  intros Hrank [i Hi]%elem_of_players_of%list_elem_of_lookup_1.
  erewrite (loc_report _ _ (RankRate rank) _ i p); [| |done].
  2:{ rewrite summary_report_lines, !elem_of_app. right. left.
      unfold rank_rate_T. apply list_elem_of_fmap. exists rank.
      split; [done|]. by apply elem_of_ranks_of. }
  by rewrite list_lookup_fmap, Hi.
Qed.

(** C8. Take a player with at least one and fewer than [2^53] rows in the
    date range.  The summary callback returns, and its report holds, for
    every rank seen in the range, the player's rate in the player's column.
    A rate is the [float64] nearest to a number of hundredths; it is within
    half a hundredth, and the error of the five roundings that lead to it,
    of the percentage of the player's rows in range ending at that rank; it
    is 0 for a rank the player never reached; and the rates over the ranks
    the player reached sum to 100 within that tolerance per rate. *)
Theorem C8_rank_rates_sum (bapp_dict : gmap string Z) (long_df : list row)
    (start_date end_date : Z) (p : string) :
  let dff := date_mask start_date end_date long_df in
  let rows := filter (λ r, Player r = p) dff in
  let games := sizeZ rows in
  let count rank := sizeZ (filter (λ r, Rank r = rank) rows) in
  let achieved := remove_dups (Rank <$> rows) in
  let tol := ((1 # 200) + (1 # 1000000000000))%Q in
  0 < games < 2 ^ 53 →
  ∃ report,
    update_summary_table bapp_dict long_df start_date end_date = Ok report ∧
    (∀ rank, rank ∈ Rank <$> dff →
       loc report (RankRate rank) p = Some (rank_rate dff p rank)) ∧
    (∀ rank,
       (∃ hundredths, rank_rate dff p rank = fdiv (inject_Z hundredths) 100) ∧
       (Qabs (rank_rate dff p rank
              - inject_Z (count rank) / inject_Z games * 100) <= tol)%Q) ∧
    (∀ rank, rank ∉ achieved → rank_rate dff p rank = 0%Q) ∧
    (Qabs (sumQ (rank_rate dff p <$> achieved) - 100)
     <= inject_Z (sizeZ achieved) * tol)%Q.
Proof.
  intros dff rows games count achieved tol Hgames.
  exists (summary_report bapp_dict dff).
  split; [apply update_summary_table_Ok|].
  assert (p ∈ Player <$> dff) as Hp.
  { apply player_rows_nonempty. intros Hnil. unfold games, rows in Hgames.
    fold (player_rows dff p) in Hgames. rewrite Hnil in Hgames.
    unfold sizeZ in Hgames. simpl in Hgames. lia. }
  assert (∀ rank, rank_rate dff p rank
                  = round2 (fmul (fdiv (to_float (count rank)) (to_float games))
                                 100)) as Hrate.
  { intros rank. unfold rank_rate. cbv zeta.
    by rewrite rank_ct_total, rank_ct_rows. }
  assert (∀ rank, 0 ≤ count rank ≤ games) as Hcount.
  { intros rank. unfold count, games, sizeZ.
    pose proof (length_filter (λ r, Rank r = rank) rows). lia. }
  assert (∀ rank, (- tol <= rank_rate dff p rank
                            - inject_Z (count rank) / inject_Z games * 100
                   <= tol)%Q) as Herr.
  { intros rank. rewrite Hrate. by apply rate_error. }
  split_and!.
  - intros rank Hrank. by apply loc_rank_rate.
  - intros rank. split.
    + rewrite Hrate. by eexists.
    + by apply Qabs_Qle_condition.
  - intros rank Hrank. rewrite Hrate.
    assert (count rank = 0) as ->; [|apply rate_zero].
    unfold count. rewrite filter_nil_not_elem; [done|].
    intros r Hr Heq. apply Hrank. unfold achieved.
    rewrite elem_of_remove_dups, <-Heq. by apply list_elem_of_fmap_2.
  - assert (sumQ ((λ rank, inject_Z (count rank) / inject_Z games * 100)%Q
                    <$> achieved) == 100)%Q as Hexact.
    { rewrite sumQ_percent.
      unfold count. rewrite sum_class_sizes.
      - fold games. field. intros Hz.
        unfold Qeq in Hz. simpl in Hz. lia.
      - apply NoDup_remove_dups.
      - intros r Hr. unfold achieved. rewrite elem_of_remove_dups.
        by apply list_elem_of_fmap_2. }
    pose proof (sumQ_error
                  (λ rank, inject_Z (count rank) / inject_Z games * 100)%Q
                  (rank_rate dff p) tol achieved
                  (λ rank _, Herr rank)) as [Hlo Hhi].
    apply Qabs_Qle_condition. split; lra.
Qed.

(** C8 on [sample_long_df]: "A" reached three different ranks, a third of
    the games each, shown as 33.33. *)
Lemma C8_rank_rates_sum_witness :
  0 < sizeZ (filter (λ r, Player r = "A") (date_mask 10 11 sample_long_df))
    < 2 ^ 53 ∧
  rank_rate (date_mask 10 11 sample_long_df) "A" 1 = fdiv 3333 100 ∧
  (Qabs (sumQ (rank_rate (date_mask 10 11 sample_long_df) "A"
                 <$> remove_dups
                       (Rank <$> filter (λ r, Player r = "A")
                                   (date_mask 10 11 sample_long_df)))
         - 100)
   <= inject_Z 3 * ((1 # 200) + (1 # 1000000000000)))%Q.
Proof.
  assert (0 < sizeZ (filter (λ r, Player r = "A")
                       (date_mask 10 11 sample_long_df)) < 2 ^ 53) as Hgames
    by (vm_compute; split; reflexivity).
  split; [exact Hgames|]. split; [vm_compute; reflexivity|].
  destruct (C8_rank_rates_sum sample_bapp sample_long_df 10 11 "A" Hgames)
    as (report & _ & _ & _ & _ & Hsum).
  exact Hsum.
Defined.

(** ** End of the cumulative series *)

Global Instance sumZ_perm : Proper ((≡ₚ) ==> (=)) sumZ.
Proof.
  intros l1 l2 Hl. induction Hl as [|x l1 l2 _ IH|x y l|l1 l2 l3 _ IH1 _ IH2].
  - done.
  - by rewrite !sumZ_cons, IH.
  - rewrite !sumZ_cons. lia.
  - by rewrite IH1.
Qed.

Lemma sumZ_join {A} (f : A → Z) (ls : list (list A)) :
  sumZ (f <$> mjoin ls) = sumZ ((λ l, sumZ (f <$> l)) <$> ls).
Proof.
  induction ls as [|l ls IH]; [done|].
  change (mjoin (l :: ls)) with (l ++ mjoin ls).
  by rewrite fmap_app, sumZ_app, fmap_cons, sumZ_cons, IH.
Qed.

Lemma last_cumsum64 acc l :
  l ≠ [] → last (cumsum64 acc l) = Some (wrap64 (acc + sumZ l)).
Proof.
  revert acc. induction l as [|x l IH]; intros acc; [done|]. intros _.
  destruct l as [|y l].
  - simpl. unfold add64. do 2 f_equal. lia.
  - cbn [cumsum64]. rewrite last_cons_cons.
    change (last (cumsum64 (add64 acc x) (y :: l))
            = Some (wrap64 (acc + sumZ (x :: y :: l)))).
    rewrite IH by done. unfold add64. rewrite wrap64_add_l, (sumZ_cons x).
    do 2 f_equal. lia.
Qed.

Lemma filter_fmap_daily_sum (p : string) (f : Z * string → Z * string * Z)
    (keys : list (Z * string)) :
  (∀ k, (f k).1 = k) →
  filter (λ y : Z * string * Z, y.1.2 = p) (f <$> keys)
  = f <$> filter (λ k, k.2 = p) keys.
Proof.
  intros Hf. induction keys as [|k keys IH]; [done|].
  rewrite fmap_cons, !filter_cons, IH, Hf.
  by destruct (decide (k.2 = p)).
Qed.

(** The daily totals of one player add up to the player's total, modulo
    [2 ^ 64]. *)
Lemma daily_sum_player_total dff p :
  wrap64 (sumZ (snd <$> filter (λ y, y.1.2 = p) (daily_sum dff)))
  = wrap64 (sumZ (UmaScore <$> player_rows dff p)).
Proof.
  unfold daily_sum.
  rewrite (filter_fmap_daily_sum p) by done.
  rewrite <-list_fmap_compose.
  set (keys := filter (λ k : Z * string, k.2 = p)
                 (insertion_sort day_key_leb (remove_dups (day_key <$> dff)))).
  rewrite (list_fmap_ext _
             (λ k, wrap64 (sumZ (UmaScore <$> filter (λ r, day_key r = k) dff)))
             keys)
    by (intros i k _; simpl; apply sum64_spec).
  rewrite wrap64_sumZ_fmap. f_equal.
  rewrite <-(join_groups_perm day_key keys (player_rows dff p)).
  - rewrite sumZ_join, <-list_fmap_compose. apply sumZ_fmap_ext.
    intros [d q] [Hq _]%list_elem_of_filter. simpl in Hq. subst q. simpl.
    f_equal. f_equal. unfold player_rows. rewrite list_filter_filter.
    apply list_filter_iff. intros r. unfold day_key. split.
    + intros Hk. split; [done|]. by injection Hk.
    + by intros [? _].
  - apply NoDup_filter. rewrite insertion_sort_perm. apply NoDup_remove_dups.
  - intros r [Hp Hr]%list_elem_of_filter. apply list_elem_of_filter. split; [done|].
    rewrite insertion_sort_perm, elem_of_remove_dups. by apply list_elem_of_fmap_2.
Qed.

(** X17. Take a frame with an [int64] [UmaScore] column.  For a player
    with a row in the range, the player's cumulative line is not empty and
    its last point is the player's [UmaScore] total over the range as an
    [int64]: the total itself when it fits 64 bits. *)
Theorem X17_series_ends_at_total (K : sort_kind) (long_df : list row)
    (start_date end_date : Z) (p : string) :
  let dff := date_mask start_date end_date long_df in
  let mine := filter (λ x, daily_Player x = p)
                (update_daily_uma_graph K long_df start_date end_date) in
  let total := sumZ (UmaScore <$> filter (λ r, Player r = p) dff) in
  Forall (λ r, int64 (UmaScore r)) long_df →
  p ∈ Player <$> dff →
  ∃ x, last mine = Some x ∧
       UmaScore_cumsum x = wrap64 total ∧
       (int64 total → UmaScore_cumsum x = total).
Proof.
  intros dff mine total _ Hp.
  set (sorted := sort_by K date_asc (daily_sum dff)).
  assert (mine = filter (λ x, daily_Player x = p) (group_cumsum ∅ sorted))
    as Hmine by done.
  assert (daily_cells <$> mine = filter (λ y, y.1.2 = p) sorted) as Hcells.
  { by rewrite Hmine, filter_fmap_cells, group_cumsum_cells. }
  assert (UmaScore_cumsum <$> mine = cumsum64 0 (daily_UmaScore <$> mine)) as Hcum.
  { rewrite Hmine at 1. rewrite group_cumsum_player, lookup_empty. simpl.
    rewrite <-Hcells, <-list_fmap_compose. done. }
  assert (wrap64 (sumZ (daily_UmaScore <$> mine)) = wrap64 total) as Htotal.
  { unfold total. fold (player_rows dff p).
    rewrite <-daily_sum_player_total.
    assert (daily_UmaScore <$> mine = snd <$> (daily_cells <$> mine)) as ->
      by (by rewrite <-list_fmap_compose).
    rewrite Hcells. unfold sorted. by rewrite sort_by_perm. }
  assert (mine ≠ []) as Hne.
  { intros Hnil. rewrite Hnil in Hcells. simpl in Hcells.
    apply list_elem_of_fmap in Hp as (r & -> & Hr).
    assert (day_key r ∈ fst <$> sorted) as Hk.
    { unfold sorted. rewrite sort_by_perm, daily_sum_fst, elem_of_remove_dups.
      by apply list_elem_of_fmap_2. }
    apply list_elem_of_fmap in Hk as (y & Hy & Hin).
    assert (y ∈ filter (λ y : Z * string * Z, y.1.2 = Player r) sorted) as Hy'.
    { apply list_elem_of_filter. split; [|done]. by rewrite <-Hy. }
    rewrite <-Hcells in Hy'. by apply not_elem_of_nil in Hy'. }
  destruct (last mine) as [x|] eqn:Hlast; [|by apply last_None in Hlast].
  exists x. split; [done|].
  assert (last (UmaScore_cumsum <$> mine) = Some (UmaScore_cumsum x)) as Hl
    by by rewrite fmap_last, Hlast.
  rewrite Hcum, last_cumsum64 in Hl.
  2:{ intros Hnil%fmap_nil_inv. done. }
  injection Hl as Hl. rewrite Z.add_0_l, Htotal in Hl.
  split; [done|]. intros Hfit. by rewrite <-Hl, wrap64_id.
Qed.

(** X17 on [sample_long_df]: the line of "A" ends at 360. *)
Lemma X17_series_ends_at_total_witness :
  Forall (λ r, int64 (UmaScore r)) sample_long_df ∧
  "A" ∈ Player <$> date_mask 10 11 sample_long_df ∧
  ∃ x, last (filter (λ x, daily_Player x = "A")
               (update_daily_uma_graph stable_kind sample_long_df 10 11))
       = Some x ∧
       UmaScore_cumsum x = 360.
Proof.
  assert (Forall (λ r, int64 (UmaScore r)) sample_long_df) as H64
    by (apply (bool_decide_unpack _); vm_compute; exact I).
  assert ("A" ∈ Player <$> date_mask 10 11 sample_long_df) as Hin
    by (apply (bool_decide_unpack _); vm_compute; exact I).
  split; [exact H64|]. split; [exact Hin|].
  destruct (X17_series_ends_at_total stable_kind sample_long_df 10 11 "A"
              H64 Hin) as (x & Hlast & Hcum & _).
  exists x. split; [exact Hlast|exact Hcum].
Defined.

(** ** The series as a whole *)

(** X18. The series is in ascending date order from top to bottom and has
    exactly one line for each pair of a date and a player that has a row in
    the range. *)
Theorem X18_series_lines (K : sort_kind) (long_df : list row)
    (start_date end_date : Z) :
  let dff := date_mask start_date end_date long_df in
  let series := update_daily_uma_graph K long_df start_date end_date in
  StronglySorted Z.le (daily_Date <$> series) ∧
  NoDup ((λ x, (daily_Date x, daily_Player x)) <$> series) ∧
  (∀ d p, (d, p) ∈ (λ x, (daily_Date x, daily_Player x)) <$> series
          ↔ ∃ r, r ∈ dff ∧ Date r = d ∧ Player r = p).
Proof.
  intros dff series.
  set (sorted := sort_by K date_asc (daily_sum dff)).
  assert (daily_cells <$> series = sorted) as Hcells
    by apply group_cumsum_cells.
  assert ((λ x, (daily_Date x, daily_Player x)) <$> series = fst <$> sorted)
    as Hkeys by (by rewrite <-Hcells, <-list_fmap_compose).
  assert (fst <$> sorted ≡ₚ remove_dups (day_key <$> dff)) as Hperm
    by (unfold sorted; by rewrite sort_by_perm, daily_sum_fst).
  split_and!.
  - assert (daily_Date <$> series
            = (λ y : Z * string * Z, y.1.1) <$> sorted) as ->
      by (by rewrite <-Hcells, <-list_fmap_compose).
    eapply StronglySorted_fmap;
      [|apply sort_by_sorted; [apply date_asc_total|apply date_asc_trans]].
    intros a b Hab. by apply Z.leb_le.
  - rewrite Hkeys, Hperm. apply NoDup_remove_dups.
  - intros d p. rewrite Hkeys, Hperm, elem_of_remove_dups, list_elem_of_fmap.
    unfold day_key. split.
    + intros (r & [= -> ->] & Hr). by exists r.
    + intros (r & Hr & <- & <-). by exists r.
Qed.

(** ** The default date range *)

(** X19. The date picker's initial range, from the earliest to the latest
    date of the loaded frame, selects every row; both bounds are dates of
    games in the frame. *)
Theorem X19_default_range_selects_all (long_df : list row) (lo hi : Z) :
  min_date long_df = Some lo →
  max_date long_df = Some hi →
  date_mask lo hi long_df = long_df ∧
  lo ≤ hi ∧
  lo ∈ Date <$> long_df ∧ hi ∈ Date <$> long_df.
Proof.
  unfold min_date, max_date. destruct long_df as [|r l] eqn:Hl; [done|].
  rewrite <-Hl. intros [= <-] [= <-].
  assert (Date <$> long_df ≠ []) as Hne by by rewrite Hl.
  destruct (minZ_spec _ Hne) as [Hmin_in Hmin].
  destruct (maxZ_spec _ Hne) as [Hmax_in Hmax].
  rewrite Forall_forall in Hmin, Hmax.
  split_and!; [|by apply Hmax|done|done].
  unfold date_mask. apply filter_all, Forall_forall. intros x Hx.
  apply (list_elem_of_fmap_2 Date) in Hx. split; [by apply Hmin|by apply Hmax].
Qed.

Lemma X19_default_range_selects_all_witness :
  min_date sample_long_df = Some 10 ∧
  max_date sample_long_df = Some 11 ∧
  date_mask 10 11 sample_long_df = sample_long_df.
Proof.
  split; [reflexivity|]. split; [reflexivity|].
  exact (proj1 (X19_default_range_selects_all sample_long_df 10 11
                  eq_refl eq_refl)).
Defined.
